(** * Room-scoped event fan-out of the AMA server

    A shallow embedding of [server/internal/api/api.go]: the subscription
    table of [apiHandler], the broadcaster [notifyClients], the connection
    lifecycle [handleSubscribe] and the four state-changing HTTP handlers
    that emit events. *)

From Stdlib Require Import ZArith NArith Ascii String Sorted.
From stdpp Require Import base gmap sets list strings.

Open Scope string_scope.
Open Scope list_scope.

#[local] Set Warnings "-register-all".

(** ** Identities

    A [*websocket.Conn] is a pointer: two connections are the same exactly
    when they come from the same allocation, so a connection is modelled by
    its allocation index.  A [context.CancelFunc] is identified with the
    context whose [Done] channel it closes. *)

Abbreviation Conn := nat (only parsing).
Abbreviation CancelFunc := nat (only parsing).

(** [apiHandler.subscribes : map[string]map[*websocket.Conn]context.CancelFunc] *)
Abbreviation SubscriberSet := (gmap nat nat) (only parsing).
Abbreviation Registry := (gmap string (gmap nat nat)) (only parsing).

(** ** JSON documents produced by [encoding/json] *)

Inductive json : Type :=
  | JString (s : string)
  | JNumber (n : Z)
  | JObject (fields : list (string * json)).

Definition json_keys (j : json) : list string :=
  match j with
  | JObject fields => fields.*1
  | _ => []
  end.

(** ** Event taxonomy (api.go, lines 78-104) *)

Definition KindMessageCreated : string := "message_created".
Definition KindMessageAnswered : string := "message_answered".
Definition KindMessageReactionIncreased : string := "message_reaction_increased".
Definition KindMessageReactionDecreased : string := "message_reaction_decreased".

Definition event_kinds : list string :=
  [KindMessageCreated; KindMessageAnswered;
   KindMessageReactionIncreased; KindMessageReactionDecreased].

(** [type MessageCreated struct { ID string `json:"id"`; Message string `json:"message"` }] *)
Record MessageCreated := mkMessageCreated {
  created_ID : string;
  created_Message : string;
}.

(** [type MessageAnswered struct { ID string `json:"id"` }] *)
Record MessageAnswered := mkMessageAnswered {
  answered_ID : string;
}.

(** [type MessageReaction struct { ID string `json:"id"`; ReactCount int64 `json:"react_count"` }] *)
Record MessageReaction := mkMessageReaction {
  reaction_ID : string;
  reaction_ReactCount : Z;
}.

(** The [any] stored in [Message.Value]: the handlers only ever store one of
    the three payload structs declared above. *)
Inductive Payload : Type :=
  | VMessageCreated (v : MessageCreated)
  | VMessageAnswered (v : MessageAnswered)
  | VMessageReaction (v : MessageReaction).

(** [type Message struct { Kind string `json:"kind"`; Value any `json:"value"`;
    RoomID string `json:"-"` }] *)
Record Message := mkMessage {
  Kind : string;
  Value : Payload;
  RoomID : string;
}.

(** [json.Marshal] on the payload structs: one member per exported field, in
    declaration order, under the name of its tag; no field is [omitempty]. *)
Definition marshal_MessageCreated (v : MessageCreated) : json :=
  JObject [("id", JString (created_ID v)); ("message", JString (created_Message v))].

Definition marshal_MessageAnswered (v : MessageAnswered) : json :=
  JObject [("id", JString (answered_ID v))].

Definition marshal_MessageReaction (v : MessageReaction) : json :=
  JObject [("id", JString (reaction_ID v)); ("react_count", JNumber (reaction_ReactCount v))].

Definition marshal_Value (v : Payload) : json :=
  match v with
  | VMessageCreated c => marshal_MessageCreated c
  | VMessageAnswered a => marshal_MessageAnswered a
  | VMessageReaction r => marshal_MessageReaction r
  end.

(** [json.Marshal] on [Message]: the tag [json:"-"] drops [RoomID]. *)
Definition marshal_Message (msg : Message) : json :=
  JObject [("kind", JString (Kind msg)); ("value", marshal_Value (Value msg))].

(** ** Subscription table *)

(** Lines 153-157 of [handleSubscribe], executed under [h.mu]:
    create the room's set when it is missing, then store the cancel function
    under the connection. *)
Definition register (rawRoomID : string) (conn : Conn) (cancel : CancelFunc)
    (subscribes : Registry) : Registry :=
  let subscribes1 :=
    match subscribes !! rawRoomID with
    | Some _ => subscribes
    | None => <[rawRoomID := ∅]> subscribes
    end in
  match subscribes1 !! rawRoomID with
  | Some set => <[rawRoomID := <[conn := cancel]> set]> subscribes1
  | None => subscribes1 (* not reached: the entry was created just above *)
  end.

(** Line 163 of [handleSubscribe], executed under [h.mu]:
    [delete(h.subscribes[rawRoomID], conn)].  Indexing a missing room yields
    the nil map, on which [delete] does nothing; the outer table never loses
    an entry. *)
Definition deregister (rawRoomID : string) (conn : Conn)
    (subscribes : Registry) : Registry :=
  match subscribes !! rawRoomID with
  | Some set => <[rawRoomID := delete conn set]> subscribes
  | None => subscribes
  end.

(** The connections subscribed to a room. *)
Definition subscribers (rawRoomID : string) (subscribes : Registry) : gset nat :=
  match subscribes !! rawRoomID with
  | Some set => dom set
  | None => ∅
  end.

(** ** The hub: shared table and what a broadcast can do to the outside *)

Record Hub := mkHub {
  subscribes : gmap string (gmap nat nat);
  wire : list (nat * json);   (* frames written so far, oldest first *)
  cancelled : gset nat;       (* contexts whose Done channel is closed *)
}.

(** [conn.WriteJSON(msg)] when it succeeds: one frame holding the document. *)
Definition WriteJSON (conn : Conn) (msg : Message) (h : Hub) : Hub :=
  mkHub (subscribes h) (wire h ++ [(conn, marshal_Message msg)]) (cancelled h).

(** [cancel()]: closes the context; calling it again changes nothing. *)
Definition cancel (c : CancelFunc) (h : Hub) : Hub :=
  mkHub (subscribes h) (wire h) ({[c]} ∪ cancelled h).

(** Body of the [range] loop, lines 116-119.  [fails conn] tells whether the
    write on [conn] returns an error. *)
Definition deliver (fails : nat → bool) (msg : Message) (h : Hub)
    (sub : nat * nat) : Hub :=
  if fails sub.1 then cancel sub.2 h else WriteJSON sub.1 msg h.

(** Go leaves the iteration order of [range] over a map unspecified: a
    broadcast is run with some enumeration [order] of the room's set. *)
Definition range_order (order : gmap nat nat → list (nat * nat)) : Prop :=
  ∀ set, order set ≡ₚ map_to_list set.

(** [notifyClients], lines 106-121.  The whole body runs under [h.mu]. *)
Definition notifyClients (fails : nat → bool)
    (order : gmap nat nat → list (nat * nat)) (msg : Message) (h : Hub) : Hub :=
  match subscribes h !! RoomID msg with
  | None => h
  | Some set =>
      if decide (size set = 0) then h
      else foldl (deliver fails msg) h (order set)
  end.

(** The frame a subscriber receives for an event. *)
Definition frame_for (msg : Message) (sub : nat * nat) : nat * json :=
  (sub.1, marshal_Message msg).

(** ** Collaborators of the handlers

    The record store ([pgstore.Queries]), [uuid.Parse] and the websocket
    upgrader live outside this package.  A handler calls each of them at most
    once per request, so they enter as the outcome they give for their
    arguments at that moment. *)

(** A parsed [uuid.UUID]: sixteen bytes. *)
Definition UUID : Type := list N.

(** What a handler distinguishes about a store error:
    [errors.Is(err, pgx.ErrNoRows)] or not. *)
Inductive StoreError : Type := ErrNoRows | ErrOther.

Record Request := mkRequest {
  room_id : string;                (* chi.URLParam(r, "room_id") *)
  message_id : string;             (* chi.URLParam(r, "message_id") *)
  body_message : option string;    (* json.NewDecoder(r.Body).Decode(&body):
                                      None on error, else body.Message *)
}.

Record Env := mkEnv {
  uuid_Parse : string → option UUID;
  uuid_String : UUID → string;
  GetRoom : UUID → StoreError + unit;
  GetMessage : UUID → StoreError + unit;
  InsertMessage : UUID → string → StoreError + UUID;
  ReactToMessage : UUID → StoreError + Z;
  RemoveReactionFromMessage : UUID → StoreError + Z;
  MarkMessageAsAnswered : UUID → option StoreError;
  Upgrade : Request → bool;        (* h.upgrader.Upgrade(w, r, nil) succeeds *)
}.

Definition StatusNoContent : nat := 204.
Definition StatusBadRequest : nat := 400.
Definition StatusInternalServerError : nat := 500.

(** What a handler writes to its [http.ResponseWriter]. *)
Inductive Response : Type :=
  | http_Error (error : string) (code : nat)  (* http.Error(w, error, code) *)
  | http_JSON (data : json)                   (* Content-Type: application/json; w.Write(data) *)
  | http_WriteHeader (code : nat).            (* w.WriteHeader(code) *)

Definition is_error (resp : Response) : Prop :=
  match resp with
  | http_Error _ code => (400 ≤ code)%nat
  | _ => False
  end.

(** Every check of a handler either answers the request at once and returns,
    or yields a value to go on with. *)
Definition Early (A : Type) : Type := Response + A.

#[global] Instance Early_bind : MBind Early :=
  λ A B k m, match m with inl resp => inl resp | inr a => k a end.

(** [id, err := uuid.Parse(raw); if err != nil { http.Error(w, what, 400); return }] *)
Definition parse_param (E : Env) (raw what : string) : Early UUID :=
  match uuid_Parse E raw with
  | Some id => inr id
  | None => inl (http_Error what StatusBadRequest)
  end.

(** [_, err = h.q.Get...(ctx, id)] followed by the [pgx.ErrNoRows] test. *)
Definition must_exist (res : StoreError + unit) (missing : string) : Early unit :=
  match res with
  | inr row => inr row
  | inl ErrNoRows => inl (http_Error missing StatusBadRequest)
  | inl ErrOther => inl (http_Error "something went wrong" StatusInternalServerError)
  end.

(** A store write followed by [if err != nil { ...; http.Error(w, "something
    went wrong", 500); return }]. *)
Definition must_commit {A} (res : StoreError + A) : Early A :=
  match res with
  | inr a => inr a
  | inl _ => inl (http_Error "something went wrong" StatusInternalServerError)
  end.

(** A handler ends with its response and the [go h.notifyClients(msg)] calls
    it has issued. *)
Definition finish (m : Early (Response * list Message)) : Response * list Message :=
  match m with
  | inl resp => (resp, [])
  | inr out => out
  end.

(** Lines 213-230, repeated at the head of every room-scoped handler. *)
Definition room_of (E : Env) (req : Request) : Early (string * UUID) :=
  let rawRoomID := room_id req in
  roomID ← parse_param E rawRoomID "invalid room id";
  _ ← must_exist (GetRoom E roomID) "room not found";
  inr (rawRoomID, roomID).

(** Lines 382-398, repeated at the head of every message-scoped handler. *)
Definition message_of (E : Env) (req : Request) : Early UUID :=
  let rawMessageID := message_id req in
  messageID ← parse_param E rawMessageID "invalid message id";
  _ ← must_exist (GetMessage E messageID) "message not found";
  inr messageID.

(** [handleCreateRoomMessages], lines 213-267. *)
Definition handleCreateRoomMessages (E : Env) (req : Request) : Response * list Message :=
  finish (
    '(rawRoomID, roomID) ← room_of E req;
    body ← match body_message req with
           | Some text => inr text
           | None => inl (http_Error "invalid json" StatusBadRequest)
           end;
    messageID ← must_commit (InsertMessage E roomID body);
    inr (http_JSON (JObject [("id", JString (uuid_String E messageID))]),
         [mkMessage KindMessageCreated
            (VMessageCreated (mkMessageCreated (uuid_String E messageID) body))
            rawRoomID])).

(** [handleReactToMessage], lines 363-423. *)
Definition handleReactToMessage (E : Env) (req : Request) : Response * list Message :=
  finish (
    '(rawRoomID, roomID) ← room_of E req;
    messageID ← message_of E req;
    reactCount ← must_commit (ReactToMessage E messageID);
    inr (http_JSON (JObject [("react_count", JNumber reactCount)]),
         [mkMessage KindMessageReactionIncreased
            (VMessageReaction (mkMessageReaction (uuid_String E messageID) reactCount))
            rawRoomID])).

(** [handleRemoveReactFromMessage], lines 424-484. *)
Definition handleRemoveReactFromMessage (E : Env) (req : Request) : Response * list Message :=
  finish (
    '(rawRoomID, roomID) ← room_of E req;
    messageID ← message_of E req;
    reactCount ← must_commit (RemoveReactionFromMessage E messageID);
    inr (http_JSON (JObject [("react_count", JNumber reactCount)]),
         [mkMessage KindMessageReactionDecreased
            (VMessageReaction (mkMessageReaction (uuid_String E messageID) reactCount))
            rawRoomID])).

(** [handleMarkMessageAsAnswer], lines 485-538.  The payload is built with
    the [MessageCreated] struct, its [Message] field left at the zero value. *)
Definition handleMarkMessageAsAnswer (E : Env) (req : Request) : Response * list Message :=
  finish (
    '(rawRoomID, roomID) ← room_of E req;
    messageID ← message_of E req;
    _ ← match MarkMessageAsAnswered E messageID with
        | None => inr ()
        | Some _ => inl (http_Error "something went wrong" StatusInternalServerError)
        end;
    inr (http_WriteHeader StatusNoContent,
         [mkMessage KindMessageAnswered
            (VMessageCreated (mkMessageCreated (uuid_String E messageID) EmptyString))
            rawRoomID])).

(** The four handlers that change a room's state and emit an event. *)
Inductive Change : Type := CreateMessage | React | RemoveReact | MarkAnswered.

Definition handler (c : Change) : Env → Request → Response * list Message :=
  match c with
  | CreateMessage => handleCreateRoomMessages
  | React => handleReactToMessage
  | RemoveReact => handleRemoveReactFromMessage
  | MarkAnswered => handleMarkMessageAsAnswer
  end.

Definition kind_of (c : Change) : string :=
  match c with
  | CreateMessage => KindMessageCreated
  | React => KindMessageReactionIncreased
  | RemoveReact => KindMessageReactionDecreased
  | MarkAnswered => KindMessageAnswered
  end.

(** [handleSubscribe], lines 123-147: everything up to the upgrade.  Yields
    the raw room id under which the connection will be registered. *)
Definition handleSubscribe_admit (E : Env) (req : Request) : Early string :=
  '(rawRoomID, roomID) ← room_of E req;
  if Upgrade E req then inr rawRoomID
  else inl (http_Error "failed to upgrade to ws connection" StatusBadRequest).

(** ** The server as a transition system

    Every access to [h.subscribes] happens between [h.mu.Lock()] and
    [h.mu.Unlock()], so each critical section is one atomic step.  A
    [handleSubscribe] goroutine past the upgrade is identified by its
    connection; its context is the one created at line 150. *)

Inductive Pc : Type :=
  | Upgraded       (* line 150 reached: connection open, Close deferred *)
  | Subscribed     (* lines 152-158 done; parked on <-ctx.Done(), line 160 *)
  | Unblocked      (* <-ctx.Done() has returned *)
  | Deregistered   (* lines 162-164 done *)
  | Returned.      (* the deferred conn.Close() has run; the handler is over *)

Record Routine := mkRoutine {
  rawRoomID : string;
  pc : Pc;
}.

Inductive Event : Type :=
  | EvUpgrade (conn : nat)
  | EvRegister (room : string) (conn : nat)
  | EvUnblock (conn : nat)
  | EvDeregister (room : string) (conn : nat)
  | EvClose (conn : nat).

Definition event_conn (e : Event) : nat :=
  match e with
  | EvUpgrade c | EvRegister _ c | EvUnblock c | EvDeregister _ c | EvClose c => c
  end.

Record Server := mkServer {
  hub : Hub;
  routines : gmap nat Routine;   (* handleSubscribe goroutines, by connection *)
  pending : list Message;        (* go h.notifyClients(msg) issued, not yet run *)
  history : list Event;          (* lifecycle steps taken, oldest first *)
}.

(** [NewHandler], lines 33-39: an empty table. *)
Definition NewHandler : Server := mkServer (mkHub ∅ [] ∅) ∅ [] [].

(** The cancel function returned by [context.WithCancel(r.Context())] in the
    goroutine that owns [conn]. *)
Definition cancel_of (conn : nat) : nat := conn.

Definition advance (conn : nat) (room : string) (to : Pc) (ev : Event)
    (h : Hub) (s : Server) : Server :=
  mkServer h (<[conn := mkRoutine room to]> (routines s)) (pending s)
           (history s ++ [ev]).

(** [handleSubscribe], lines 123-150.  [conn] is the pointer handed out by
    the upgrader. *)
Definition handleSubscribe_enter (E : Env) (req : Request) (conn : nat)
    (s : Server) : option Response * Server :=
  match handleSubscribe_admit E req with
  | inl resp => (Some resp, s)
  | inr room => (None, advance conn room Upgraded (EvUpgrade conn) (hub s) s)
  end.

(** Lines 152-158. *)
Definition handleSubscribe_register (conn : nat) (room : string) (s : Server) : Server :=
  advance conn room Subscribed (EvRegister room conn)
    (mkHub (register room conn (cancel_of conn) (subscribes (hub s)))
           (wire (hub s)) (cancelled (hub s))) s.

(** Line 160, once the context is done. *)
Definition handleSubscribe_unblock (conn : nat) (room : string) (s : Server) : Server :=
  advance conn room Unblocked (EvUnblock conn) (hub s) s.

(** Lines 162-164. *)
Definition handleSubscribe_deregister (conn : nat) (room : string) (s : Server) : Server :=
  advance conn room Deregistered (EvDeregister room conn)
    (mkHub (deregister room conn (subscribes (hub s)))
           (wire (hub s)) (cancelled (hub s))) s.

(** Line 165: the function returns and the deferred [conn.Close()] runs. *)
Definition handleSubscribe_return (conn : nat) (room : string) (s : Server) : Server :=
  advance conn room Returned (EvClose conn) (hub s) s.

(** The request's own context ends (the client went away, the server shuts
    down): the derived context is done as well. *)
Definition request_done (conn : nat) (s : Server) : Server :=
  mkServer (cancel (cancel_of conn) (hub s)) (routines s) (pending s) (history s).

(** A state-changing handler runs and issues its [go h.notifyClients(...)]. *)
Definition serve (c : Change) (E : Env) (req : Request) (s : Server) : Server :=
  mkServer (hub s) (routines s) (pending s ++ (handler c E req).2) (history s).

(** One of the issued broadcasts runs. *)
Definition run_notify (fails : nat → bool) (order : gmap nat nat → list (nat * nat))
    (msg : Message) (rest : list Message) (s : Server) : Server :=
  mkServer (notifyClients fails order msg (hub s)) (routines s) rest (history s).

(** The steps of the server.  The upgrader allocates the connection it
    returns, so its pointer differs from every connection handed out so
    far; broadcasts issued with [go] run in any order, each with some
    enumeration of the room's set and some outcome of the writes. *)
Inductive step (s : Server) : Server → Prop :=
  | step_subscribe E req conn :
      routines s !! conn = None →
      step s (handleSubscribe_enter E req conn s).2
  | step_register conn room :
      routines s !! conn = Some (mkRoutine room Upgraded) →
      step s (handleSubscribe_register conn room s)
  | step_request_done conn :
      is_Some (routines s !! conn) →
      step s (request_done conn s)
  | step_unblock conn room :
      routines s !! conn = Some (mkRoutine room Subscribed) →
      cancel_of conn ∈ cancelled (hub s) →
      step s (handleSubscribe_unblock conn room s)
  | step_deregister conn room :
      routines s !! conn = Some (mkRoutine room Unblocked) →
      step s (handleSubscribe_deregister conn room s)
  | step_return conn room :
      routines s !! conn = Some (mkRoutine room Deregistered) →
      step s (handleSubscribe_return conn room s)
  | step_serve c E req :
      step s (serve c E req s)
  | step_notify fails order msg before after :
      pending s = before ++ msg :: after →
      range_order order →
      step s (run_notify fails order msg (before ++ after) s).

Definition reachable (s : Server) : Prop := rtc step NewHandler s.

(** The lifecycle events of one connection, in the order of the source. *)
Definition lifecycle (room : string) (conn : nat) : list Event :=
  [EvUpgrade conn; EvRegister room conn; EvUnblock conn;
   EvDeregister room conn; EvClose conn].

Definition events_of (conn : nat) (h : list Event) : list Event :=
  filter (λ e, event_conn e = conn) h.

Definition progress (p : Pc) : nat :=
  match p with
  | Upgraded => 1
  | Subscribed => 2
  | Unblocked => 3
  | Deregistered => 4
  | Returned => 5
  end.

(** A frame has the wire shape when it is an object of exactly the two
    members [kind] and [value], the kind being one of the four. *)
Definition wire_shape (j : json) : Prop :=
  ∃ kind value, j = JObject [("kind", JString kind); ("value", value)] ∧
                kind ∈ event_kinds.

(** ** A concrete environment

    [github.com/google/uuid] is a dependency, not part of this package; the
    handlers are stated over any [uuid_Parse].  The functions below follow
    that library's [Parse] and [UUID.String] and serve to run the handlers
    on actual room ids. *)

Definition xvalue (a : ascii) : option N :=
  let n := N_of_ascii a in
  if ((48 <=? n) && (n <=? 57))%N then Some (n - 48)%N
  else if ((97 <=? n) && (n <=? 102))%N then Some (n - 87)%N
  else if ((65 <=? n) && (n <=? 70))%N then Some (n - 55)%N
  else None.

Definition xtob (x1 x2 : ascii) : option N :=
  b1 ← xvalue x1; b2 ← xvalue x2; Some (16 * b1 + b2)%N.

Definition byte_at (l : list ascii) (i : nat) : option N :=
  x1 ← l !! i; x2 ← l !! S i; xtob x1 x2.

Definition is_dash (l : list ascii) (i : nat) : bool :=
  bool_decide (l !! i = Some "-"%char).

(** [xxxxxxxx-xxxx-xxxx-xxxx-xxxxxxxxxxxx] *)
Definition parse_hyphenated (l : list ascii) : option UUID :=
  if is_dash l 8 && is_dash l 13 && is_dash l 18 && is_dash l 23
  then mapM (byte_at l) [0; 2; 4; 6; 9; 11; 14; 16; 19; 21; 24; 26; 28; 30; 32; 34]
  else None.

Definition to_lower (a : ascii) : ascii :=
  let n := N_of_ascii a in
  if ((65 <=? n) && (n <=? 90))%N then ascii_of_N (n + 32) else a.

Definition google_uuid_Parse (s : string) : option UUID :=
  let l := list_ascii_of_string s in
  match length l with
  | 36 => parse_hyphenated l
  | 45 =>
      if bool_decide (to_lower <$> take 9 l = list_ascii_of_string "urn:uuid:")
      then parse_hyphenated (drop 9 l) else None
  | 38 => parse_hyphenated (drop 1 l)
  | 32 => mapM (byte_at l) ((λ i, 2 * i) <$> seq 0 16)
  | _ => None
  end.

Definition hex_digit (n : N) : ascii :=
  default "0"%char (list_ascii_of_string "0123456789abcdef" !! N.to_nat n).

Definition hex_byte (b : N) : list ascii :=
  [hex_digit (b / 16)%N; hex_digit (b mod 16)%N].

Definition hex (bs : list N) : list ascii := mjoin (hex_byte <$> bs).

Definition google_uuid_String (u : UUID) : string :=
  string_of_list_ascii
    (hex (take 4 u) ++ "-"%char :: hex (take 2 (drop 4 u)) ++
     "-"%char :: hex (take 2 (drop 6 u)) ++
     "-"%char :: hex (take 2 (drop 8 u)) ++
     "-"%char :: hex (drop 10 u)).

Definition room_hyphenated : string := "123e4567-e89b-12d3-a456-426614174000".
Definition room_compact : string := "123e4567e89b12d3a456426614174000".
Definition message_m1 : string := "9b2d1c3e-0f4a-4b5c-8d6e-7f8091a2b3c4".

Definition m1_uuid : UUID :=
  [155; 45; 28; 62; 15; 74; 75; 92; 141; 110; 127; 128; 145; 162; 179; 196]%N.

(** Every room and message exists and every write succeeds. *)
Definition store_ok : Env :=
  mkEnv google_uuid_Parse google_uuid_String
        (λ _, inr ()) (λ _, inr ())
        (λ _ _, inr m1_uuid) (λ _, inr 3%Z) (λ _, inr 2%Z) (λ _, None)
        (λ _, true).

(** Rooms and messages exist, every write fails. *)
Definition store_down : Env :=
  mkEnv google_uuid_Parse google_uuid_String
        (λ _, inr ()) (λ _, inr ())
        (λ _ _, inl ErrOther) (λ _, inl ErrOther) (λ _, inl ErrOther)
        (λ _, Some ErrOther)
        (λ _, true).

(** No room exists. *)
Definition store_empty : Env :=
  mkEnv google_uuid_Parse google_uuid_String
        (λ _, inl ErrNoRows) (λ _, inl ErrNoRows)
        (λ _ _, inl ErrOther) (λ _, inl ErrOther) (λ _, inl ErrOther)
        (λ _, Some ErrOther)
        (λ _, true).

Definition request_hyphenated : Request :=
  mkRequest room_hyphenated message_m1 (Some "hello").

Definition request_compact : Request :=
  mkRequest room_compact message_m1 (Some "hello").

(** Room [R1] with subscribers 1 and 2, nothing written, nothing cancelled. *)
Definition hub_R1 : Hub := mkHub {[ "R1" := {[ 1 := 1; 2 := 2 ]} ]} [] ∅.

Definition hello_R1 : Message :=
  mkMessage KindMessageCreated (VMessageCreated (mkMessageCreated "m1" "hello")) "R1".

(** ** Invariants of the reachable states *)

(** A connection sits in a room's set only while its goroutine is between
    registration and deregistration for that very room. *)
Definition table_tracks_routines (s : Server) : Prop :=
  ∀ room conn, conn ∈ subscribers room (subscribes (hub s)) →
    routines s !! conn = Some (mkRoutine room Subscribed) ∨
    routines s !! conn = Some (mkRoutine room Unblocked).

(** Conversely, a goroutine between registration and deregistration has its
    connection in the set of its room. *)
Definition routines_in_table (s : Server) : Prop :=
  ∀ room conn,
    routines s !! conn = Some (mkRoutine room Subscribed) ∨
    routines s !! conn = Some (mkRoutine room Unblocked) →
    conn ∈ subscribers room (subscribes (hub s)).

(** The events recorded for a connection are the first steps of its
    lifecycle, as many as its goroutine has taken. *)
Definition history_tracks_routines (s : Server) : Prop :=
  ∀ conn, events_of conn (history s) =
    match routines s !! conn with
    | None => []
    | Some r => take (progress (pc r)) (lifecycle (rawRoomID r) conn)
    end.

(** A goroutine is past line 160 only if its context is done. *)
Definition unblocked_were_cancelled (s : Server) : Prop :=
  ∀ conn r, routines s !! conn = Some r → (3 ≤ progress (pc r))%nat →
    cancel_of conn ∈ cancelled (hub s).

(** A message is issued when one of the four handlers builds it for some
    request. *)
Definition issued (msg : Message) : Prop :=
  ∃ c E req, msg ∈ (handler c E req).2.

Definition wire_carries_issued (s : Server) : Prop :=
  Forall issued (pending s) ∧
  ∀ conn j, (conn, j) ∈ wire (hub s) → ∃ msg, issued msg ∧ j = marshal_Message msg.

(** ** A run of the server

    One client subscribes to a room, a question is posted and broadcast,
    the client goes away and its handler winds down. *)

Definition run_upgraded : Server :=
  (handleSubscribe_enter store_ok request_hyphenated 1 NewHandler).2.
Definition run_subscribed : Server :=
  handleSubscribe_register 1 room_hyphenated run_upgraded.
Definition run_posted : Server :=
  serve CreateMessage store_ok request_hyphenated run_subscribed.
Definition run_notified : Server :=
  run_notify (λ _, false) map_to_list
    (mkMessage KindMessageCreated
       (VMessageCreated (mkMessageCreated message_m1 "hello")) room_hyphenated)
    ([] ++ []) run_posted.
Definition run_cancelled : Server := request_done 1 run_notified.
Definition run_unblocked : Server :=
  handleSubscribe_unblock 1 room_hyphenated run_cancelled.
Definition run_deregistered : Server :=
  handleSubscribe_deregister 1 room_hyphenated run_unblocked.
Definition run_returned : Server :=
  handleSubscribe_return 1 room_hyphenated run_deregistered.

(** The same client, and a question marked as answered. *)
Definition run_answer_posted : Server :=
  serve MarkAnswered store_ok request_hyphenated run_subscribed.
Definition run_answer_notified : Server :=
  run_notify (λ _, false) map_to_list
    (mkMessage KindMessageAnswered
       (VMessageCreated (mkMessageCreated message_m1 EmptyString)) room_hyphenated)
    ([] ++ []) run_answer_posted.

(** The documents the four handlers put on the wire, kind by kind. *)
Definition event_document (j : json) : Prop :=
  (∃ id text,
     j = JObject [("kind", JString KindMessageCreated);
                  ("value", JObject [("id", JString id); ("message", JString text)])]) ∨
  (∃ id,
     j = JObject [("kind", JString KindMessageAnswered);
                  ("value", JObject [("id", JString id);
                                     ("message", JString EmptyString)])]) ∨
  (∃ id count,
     j = JObject [("kind", JString KindMessageReactionIncreased);
                  ("value", JObject [("id", JString id);
                                     ("react_count", JNumber count)])]) ∨
  (∃ id count,
     j = JObject [("kind", JString KindMessageReactionDecreased);
                  ("value", JObject [("id", JString id);
                                     ("react_count", JNumber count)])]).

(** Unfolds a handler down to the outcomes of its collaborators. *)
Ltac run_handler :=
  unfold handler, handleCreateRoomMessages, handleReactToMessage,
    handleRemoveReactFromMessage, handleMarkMessageAsAnswer,
    handleSubscribe_enter, handleSubscribe_admit,
    room_of, message_of, parse_param, must_exist, must_commit, finish,
    mbind, Early_bind in *;
  simpl in *.


(** ** Further notions *)

(** The documents one connection has been sent, oldest first. *)
Definition received (conn : nat) (h : Hub) : list json :=
  (filter (λ f : nat * json, f.1 = conn) (wire h)).*2.

(** The cancel function stored for a connection is the one of the handler
    that owns the connection. *)
Definition table_stores_own_cancel (s : Server) : Prop :=
  ∀ room (set : gmap nat nat) conn k,
    subscribes (hub s) !! room = Some set → set !! conn = Some k →
    k = cancel_of conn.

(** ** The handlers that read (api.go, lines 191-212 and 268-362)

    Their answers hold arrays, booleans and [null], which the events never
    do: a second, full type of JSON documents. *)

Inductive jvalue : Type :=
  | VNull
  | VBool (b : bool)
  | VNumber (n : Z)       (* an integer: all the server writes, all a parse of it gives *)
  | VString (s : string)
  | VArray (items : list jvalue)
  | VObject (fields : list (string * jvalue)).

(** The range of Go's [int64], the type of the counts the store returns. *)
Definition int64 (n : Z) : Prop := (- 2 ^ 63 ≤ n < 2 ^ 63)%Z.

(** An integer a JavaScript number holds exactly, whatever its digits. *)
Definition safe_integer (n : Z) : Prop := (Z.abs n ≤ 2 ^ 53)%Z.

(** The JavaScript number that [JSON.parse] makes of the integer literal
    [n]: the nearest IEEE 754 double, ties to the even significand.  A
    double has 53 significant bits; the [e] bits beyond them are rounded
    away.  (An [int64] is far below the largest double.) *)
Definition to_double (n : Z) : Z :=
  let a := Z.abs n in
  let e := (Z.log2 a - 52)%Z in
  if (e <=? 0)%Z then n
  else
    let q := Z.shiftr a e in
    let r := Z.land a (Z.ones e) in
    let half := Z.shiftl 1 (e - 1) in
    let q' := if (half <? r)%Z || ((r =? half)%Z && Z.odd q) then (q + 1)%Z else q in
    (Z.sgn n * Z.shiftl q' e)%Z.

(** [JSON.parse] of an event document written by [encoding/json]: the same
    tree, every number rounded to a double. *)
Fixpoint to_jvalue (j : json) : jvalue :=
  match j with
  | JString s => VString s
  | JNumber n => VNumber (to_double n)
  | JObject fields => VObject (prod_map id to_jvalue <$> fields)
  end.

(** [response.json()] on a body written by [encoding/json]: the same tree,
    every number rounded to a double. *)
Fixpoint response_json (v : jvalue) : jvalue :=
  match v with
  | VNumber n => VNumber (to_double n)
  | VArray items => VArray (response_json <$> items)
  | VObject fields => VObject (prod_map id response_json <$> fields)
  | VNull | VBool _ | VString _ => v
  end.

(** The rows of [pgstore], by the fields the handlers read. *)
Record Room := mkRoom {
  Room_ID : UUID;
  Room_Theme : string;
}.

Record StoredMessage := mkStoredMessage {
  Stored_ID : UUID;
  Stored_RoomID : UUID;
  Stored_Message : string;
  Stored_ReactionCount : Z;
  Stored_Answered : bool;
}.

(** The queries of these handlers, as the outcome they give. *)
Record Catalogue := mkCatalogue {
  GetRooms : StoreError + list Room;
  GetRoomMessages : UUID → StoreError + list StoredMessage;
  GetMessageRow : UUID → StoreError + StoredMessage;   (* h.q.GetMessage, with its row *)
}.

(** [var resp []response] followed by one [append] per row, then
    [json.Marshal(resp)]: the slice is still nil when there is no row, and
    a nil slice is written as [null]. *)
Definition marshal_slice {A} (marshal : A → jvalue) (rows : list A) : jvalue :=
  match rows with
  | [] => VNull
  | _ => VArray (marshal <$> rows)
  end.

(** [handleGetRooms], lines 191-212. *)
Definition handleGetRooms (K : Catalogue) (E : Env) : Early jvalue :=
  rooms ← must_commit (GetRooms K);
  inr (marshal_slice
         (λ room, VObject [("id", VString (uuid_String E (Room_ID room)));
                           ("theme", VString (Room_Theme room))])
         rooms).

(** The [response] struct of [handleGetRoomMessages], lines 294-300. *)
Definition marshal_stored (E : Env) (message : StoredMessage) : jvalue :=
  VObject [("id", VString (uuid_String E (Stored_ID message)));
           ("room_id", VString (uuid_String E (Stored_RoomID message)));
           ("message", VString (Stored_Message message));
           ("reaction_count", VNumber (Stored_ReactionCount message));
           ("answered", VBool (Stored_Answered message))].

(** [handleGetRoomMessages], lines 268-316. *)
Definition handleGetRoomMessages (K : Catalogue) (E : Env) (req : Request) : Early jvalue :=
  '(rawRoomID, roomID) ← room_of E req;
  messages ← must_commit (GetRoomMessages K roomID);
  inr (marshal_slice (marshal_stored E) messages).

(** [handleGetRoomMessage], lines 317-362. *)
Definition handleGetRoomMessage (K : Catalogue) (E : Env) (req : Request) : Early jvalue :=
  '(rawRoomID, roomID) ← room_of E req;
  messageID ← parse_param E (message_id req) "invalid message id";
  message ← match GetMessageRow K messageID with
            | inr row => inr row
            | inl ErrNoRows => inl (http_Error "message not found" StatusBadRequest)
            | inl ErrOther =>
                inl (http_Error "something went wrong" StatusInternalServerError)
            end;
  inr (VObject [("id", VString (uuid_String E (Stored_ID message)));
                ("message", VString (Stored_Message message))]).

(** ** The web client

    The client reads the server's documents with [JSON.parse] and plain
    property access; the TypeScript annotations are erased at run time.  A
    JavaScript value is a JSON value or [undefined] ([None]); a computation
    that throws a [TypeError] yields [None]. *)

(** The own property [k] of a parsed object: of two members with the same
    name [JSON.parse] keeps the later one. *)
Fixpoint own_property (k : string) (fields : list (string * jvalue)) : option jvalue :=
  match fields with
  | [] => None
  | (k', v) :: rest =>
      match own_property k rest with
      | Some later => Some later
      | None => if decide (k' = k) then Some v else None
      end
  end.

(** [v.k], for the member names this client reads: reading a property of
    [undefined] or [null] throws; booleans, numbers, strings and arrays have
    no property of these names. *)
Definition js_get (k : string) (v : option jvalue) : option (option jvalue) :=
  match v with
  | None | Some VNull => None
  | Some (VObject fields) => Some (own_property k fields)
  | Some _ => Some None
  end.

(** [a === b] between a value held in the client's state and a value of the
    document just parsed: primitives compare by value; an array or object
    of a fresh parse is identical to nothing parsed before. *)
Definition js_strict_eq (a b : option jvalue) : bool :=
  match a, b with
  | None, None => true
  | Some VNull, Some VNull => true
  | Some (VBool x), Some (VBool y) => bool_decide (x = y)
  | Some (VNumber x), Some (VNumber y) => bool_decide (x = y)
  | Some (VString x), Some (VString y) => bool_decide (x = y)
  | _, _ => false
  end.

(** An entry of [GetRoomMessagesResponse.messages]. *)
Record ClientMessage := mkClientMessage {
  cm_id : option jvalue;
  cm_text : option jvalue;
  cm_amountOfReactions : option jvalue;
  cm_answered : option jvalue;
}.

(** [getRoomMessages], get-room-messages.ts lines 14-38, from the parsed
    body on: [data?.map(item => ...) ?? []]. *)
Definition getRoomMessages (data : jvalue) : option (list ClientMessage) :=
  match data with
  | VNull => Some []
  | VArray items =>
      mapM (λ item,
              id ← js_get "id" (Some item);
              text ← js_get "message" (Some item);
              amount ← js_get "reaction_count" (Some item);
              answered ← js_get "answered" (Some item);
              Some (mkClientMessage id text amount answered)) items
  | _ => None   (* data.map is not a function *)
  end.

(** The updaters of [ws.onmessage], use-messages-websockets.ts lines 31-98.
    [state] is the cached list, [None] while nothing is cached; the result
    is the list to cache, [None] when the updater returns [undefined] and
    the cache is left alone. *)
Definition on_created (data : jvalue) (state : option (list ClientMessage))
    : option (option (list ClientMessage)) :=
  value ← js_get "value" (Some data);
  id ← js_get "id" value;
  text ← js_get "message" value;
  Some (Some (default [] state ++
              [mkClientMessage id text (Some (VNumber 0)) (Some (VBool false))])).

Definition on_answered (data : jvalue) (state : option (list ClientMessage))
    : option (option (list ClientMessage)) :=
  match state with
  | None => Some None
  | Some messages =>
      messages' ← mapM (λ message,
                          value ← js_get "value" (Some data);
                          id ← js_get "id" value;
                          if js_strict_eq (cm_id message) id
                          then Some (mkClientMessage (cm_id message) (cm_text message)
                                       (cm_amountOfReactions message) (Some (VBool true)))
                          else Some message) messages;
      Some (Some messages')
  end.

Definition on_reaction (data : jvalue) (state : option (list ClientMessage))
    : option (option (list ClientMessage)) :=
  match state with
  | None => Some None
  | Some messages =>
      messages' ← mapM (λ message,
                          value ← js_get "value" (Some data);
                          id ← js_get "id" value;
                          if js_strict_eq (cm_id message) id
                          then count ← js_get "react_count" value;
                               Some (mkClientMessage (cm_id message) (cm_text message)
                                       count (cm_answered message))
                          else Some message) messages;
      Some (Some messages')
  end.

(** [ws.onmessage]: the cache after the event; [None] when the handler
    throws, which leaves the cache as it was. *)
Definition onmessage (data : jvalue) (state : option (list ClientMessage))
    : option (option (list ClientMessage)) :=
  kind ← js_get "kind" (Some data);
  if js_strict_eq kind (Some (VString "message_created")) then
    on_created data state
  else if js_strict_eq kind (Some (VString "message_answered")) then
    state' ← on_answered data state; Some (from_option Some state state')
  else if js_strict_eq kind (Some (VString "message_reaction_increased"))
          || js_strict_eq kind (Some (VString "message_reaction_decreased")) then
    state' ← on_reaction data state; Some (from_option Some state state')
  else Some state.

(** [Array.prototype.sort(compare)] is stable, and for a comparator that
    orders its arguments consistently its result is the one stable sorted
    arrangement of the array; stable insertion computes it. *)
Fixpoint insert_sorted {A} (compare : A → A → Z) (x : A) (l : list A) : list A :=
  match l with
  | [] => [x]
  | y :: rest =>
      if (compare x y <=? 0)%Z then x :: y :: rest
      else y :: insert_sorted compare x rest
  end.

Definition js_sort {A} (compare : A → A → Z) (l : list A) : list A :=
  foldr (insert_sorted compare) [] l.

(** The number held in a field.  Only numbers are modelled; the coercion
    of other values by [-] is left out. *)
Definition number_of (v : option jvalue) : Z :=
  match v with
  | Some (VNumber n) => n
  | _ => 0%Z
  end.

(** JavaScript truthiness, as [&&] and [!] test it. *)
Definition truthy (v : option jvalue) : bool :=
  match v with
  | None | Some VNull => false
  | Some (VBool b) => b
  | Some (VNumber n) => negb (n =? 0)%Z
  | Some (VString s) => negb (String.eqb s EmptyString)
  | Some (VArray _) | Some (VObject _) => true
  end.

(** [(a, b) => b.amountOfReactions - a.amountOfReactions] *)
Definition by_reactions (a b : ClientMessage) : Z :=
  (number_of (cm_amountOfReactions b) - number_of (cm_amountOfReactions a))%Z.

(** The second comparator: answered messages after the others. *)
Definition by_answered (a b : ClientMessage) : Z :=
  if truthy (cm_answered a) && negb (truthy (cm_answered b)) then 1%Z
  else if negb (truthy (cm_answered a)) && truthy (cm_answered b) then (-1)%Z
  else 0%Z.

(** [sortedMessages] of the [Messages] component. *)
Definition sortedMessages (messages : list ClientMessage) : list ClientMessage :=
  js_sort by_answered (js_sort by_reactions messages).

(** A cached entry whose reaction count is a number. *)
Definition counted (m : ClientMessage) : Prop :=
  ∃ n, cm_amountOfReactions m = Some (VNumber n).

(** [a] may stand before [b] in a list ordered by falling reaction count. *)
Definition more_reactions (a b : ClientMessage) : Prop :=
  (number_of (cm_amountOfReactions b) ≤ number_of (cm_amountOfReactions a))%Z.

Definition is_answered (m : ClientMessage) : Prop := truthy (cm_answered m) = true.

(** Sample data for the client. *)
Definition other_room : string := "00000000-0000-0000-0000-000000000001".

Definition two_stored : list StoredMessage :=
  [mkStoredMessage m1_uuid [0;0;0;0;0;0;0;0;0;0;0;0;0;0;0;1]%N "hello" 3 false;
   mkStoredMessage [0;0;0;0;0;0;0;0;0;0;0;0;0;0;0;2]%N
                   [0;0;0;0;0;0;0;0;0;0;0;0;0;0;0;1]%N "again" 5 true].

Definition catalogue_two : Catalogue :=
  mkCatalogue (inr []) (λ _, inr two_stored)
              (λ _, inr (mkStoredMessage m1_uuid [0;0;0;0;0;0;0;0;0;0;0;0;0;0;0;1]%N
                           "hello" 3 false)).

Definition catalogue_none : Catalogue :=
  mkCatalogue (inr []) (λ _, inr [])
              (λ _, inl ErrNoRows).

Definition cached_two : list ClientMessage :=
  [mkClientMessage (Some (VString message_m1)) (Some (VString "hello"))
                   (Some (VNumber 3)) (Some (VBool false));
   mkClientMessage (Some (VString "00000000-0000-0000-0000-000000000002"))
                   (Some (VString "again")) (Some (VNumber 5)) (Some (VBool true))].

(** * Properties *)

(** ** The subscription table *)

Lemma subscribers_deregister room conn (subs : gmap string (gmap nat nat)) :
  subscribers room (deregister room conn subs) = subscribers room subs ∖ {[conn]}.
Proof.
  unfold subscribers, deregister.
  destruct (subs !! room) as [set|] eqn:Hroom.
  - rewrite lookup_insert_eq. apply dom_delete_L.
  - rewrite Hroom. set_solver.
Qed.

Lemma deregister_absent room conn (subs : gmap string (gmap nat nat)) :
  conn ∉ subscribers room subs → deregister room conn subs = subs.
Proof.
  unfold subscribers, deregister.
  destruct (subs !! room) as [set|] eqn:Hroom; [|done].
  intros Hconn%not_elem_of_dom.
  rewrite delete_id by done. by apply insert_id.
Qed.

(** C7. Removing a subscriber that is not in the room's set leaves the table
    as it is: when the room has no set at all, when the set lacks the
    connection, and when the same removal is done a second time. *)
Theorem deregister_idempotent room conn (subs : gmap string (gmap nat nat)) :
  (conn ∉ subscribers room subs → deregister room conn subs = subs) ∧
  (subs !! room = None → deregister room conn subs = subs) ∧
  conn ∉ subscribers room (deregister room conn subs) ∧
  deregister room conn (deregister room conn subs) = deregister room conn subs.
Proof.
  assert (Hgone : conn ∉ subscribers room (deregister room conn subs))
    by (rewrite subscribers_deregister; set_solver).
  split; [apply deregister_absent|].
  split; [by unfold deregister; intros ->|].
  split; [done|]. by apply deregister_absent.
Qed.

Lemma deregister_idempotent_witness :
  deregister "R1" 7 (subscribes hub_R1) = subscribes hub_R1 ∧
  deregister "R2" 1 (subscribes hub_R1) = subscribes hub_R1 ∧
  deregister "R1" 1 (deregister "R1" 1 (subscribes hub_R1)) =
    deregister "R1" 1 (subscribes hub_R1).
Proof.
  destruct (deregister_idempotent "R1" 7 (subscribes hub_R1)) as (Habsent & _).
  destruct (deregister_idempotent "R2" 1 (subscribes hub_R1)) as (_ & Hnoroom & _).
  destruct (deregister_idempotent "R1" 1 (subscribes hub_R1)) as (_ & _ & _ & Htwice).
  split; [|split].
  - apply Habsent. apply (bool_decide_unpack _). vm_compute. exact I.
  - apply Hnoroom. vm_compute. reflexivity.
  - exact Htwice.
Defined.

(** ** The broadcaster *)

Lemma foldl_deliver fails msg (l : list (nat * nat)) h :
  subscribes (foldl (deliver fails msg) h l) = subscribes h ∧
  wire (foldl (deliver fails msg) h l) =
    wire h ++ (frame_for msg <$> filter (λ s : nat * nat, fails s.1 = false) l) ∧
  cancelled (foldl (deliver fails msg) h l) =
    list_to_set ((filter (λ s : nat * nat, fails s.1 = true) l).*2) ∪ cancelled h.
Proof.
  revert h. induction l as [|[c k] l IH]; intros h; simpl.
  - split; [reflexivity|]. split; [by rewrite app_nil_r | set_solver].
  - destruct (IH (deliver fails msg h (c, k))) as (Hs & Hw & Hc).
    rewrite Hs, Hw, Hc. unfold deliver; simpl.
    rewrite !filter_cons; simpl.
    destruct (fails c) eqn:Hf; simpl.
    + split; [reflexivity|]. split; [reflexivity|]. set_solver.
    + split; [reflexivity|]. split; [|reflexivity].
      by rewrite <- app_assoc.
Qed.

(** Absent room and empty set take the early return; otherwise the loop runs
    over the enumeration.  In all three cases the result is the loop over
    the enumeration of the room's set, the missing set counting as empty. *)
Lemma notifyClients_loop fails order msg h :
  range_order order →
  notifyClients fails order msg h =
    foldl (deliver fails msg) h (order (default ∅ (subscribes h !! RoomID msg))).
Proof.
  intros Horder. unfold notifyClients.
  destruct (subscribes h !! RoomID msg) as [set|]; simpl.
  - case_decide as Hsize; [|reflexivity].
    apply map_size_empty_inv in Hsize as ->.
    specialize (Horder ∅). rewrite map_to_list_empty in Horder.
    by apply Permutation_nil_r in Horder as ->.
  - specialize (Horder ∅). rewrite map_to_list_empty in Horder.
    by apply Permutation_nil_r in Horder as ->.
Qed.

Lemma notifyClients_subscribes fails order msg h :
  subscribes (notifyClients fails order msg h) = subscribes h.
Proof.
  unfold notifyClients. destruct (subscribes h !! RoomID msg); [|reflexivity].
  case_decide; [reflexivity|]. apply foldl_deliver.
Qed.

Lemma elem_of_order order (set : gmap nat nat) conn k :
  range_order order → (conn, k) ∈ order set ↔ set !! conn = Some k.
Proof. intros Horder. rewrite (Horder set). apply elem_of_map_to_list. Qed.

(** C6. When the event's room has no entry in the table, or an entry with
    an empty set, the broadcast changes nothing: no frame is written, no
    context cancelled, the table is as before. *)
Theorem notifyClients_no_subscribers fails order msg h :
  subscribes h !! RoomID msg = None ∨ subscribes h !! RoomID msg = Some ∅ →
  notifyClients fails order msg h = h.
Proof.
  unfold notifyClients. intros [-> | ->]; [reflexivity|].
  by rewrite decide_True by apply map_size_empty.
Qed.

Lemma notifyClients_no_subscribers_witness :
  notifyClients (λ _, true) map_to_list hello_R1 (mkHub ∅ [] ∅) = mkHub ∅ [] ∅ ∧
  notifyClients (λ _, true) map_to_list hello_R1 (mkHub {[ "R1" := ∅ ]} [] ∅) =
    mkHub {[ "R1" := ∅ ]} [] ∅.
Proof.
  split.
  - apply (notifyClients_no_subscribers (λ _, true) map_to_list hello_R1 (mkHub ∅ [] ∅)).
    left. reflexivity.
  - apply (notifyClients_no_subscribers (λ _, true) map_to_list hello_R1
             (mkHub {[ "R1" := ∅ ]} [] ∅)).
    right. vm_compute. reflexivity.
Defined.

Lemma filter_all {A} (P : A → Prop) `{∀ x, Decision (P x)} (l : list A) :
  Forall P l → filter P l = l.
Proof.
  induction 1 as [|x l Hx _ IH]; [reflexivity|].
  by rewrite filter_cons_True, IH.
Qed.

Lemma filter_none {A} (P : A → Prop) `{∀ x, Decision (P x)} (l : list A) :
  Forall (λ x, ¬ P x) l → filter P l = [].
Proof.
  induction 1 as [|x l Hx _ IH]; [reflexivity|].
  by rewrite filter_cons_False.
Qed.

(** C1. A room has the subscriber set [set]; the write fails on subscriber
    [k] and on no other.  Then the broadcast leaves the table alone, closes
    the context of [k] and no other, and writes exactly one frame carrying
    the event to each remaining subscriber.  [notifyClients] has no result
    to report a failure with: it always yields the next hub. *)
Theorem notifyClients_isolates_failure fails order msg h (set : gmap nat nat) k ck :
  range_order order →
  subscribes h !! RoomID msg = Some set →
  set !! k = Some ck →
  fails k = true →
  (∀ conn, conn ≠ k → is_Some (set !! conn) → fails conn = false) →
  ∃ frames,
    notifyClients fails order msg h =
      mkHub (subscribes h) (wire h ++ frames) ({[ck]} ∪ cancelled h) ∧
    frames ≡ₚ frame_for msg <$> map_to_list (delete k set).
Proof.
  intros Horder Hroom Hk Hfail Hothers.
  rewrite notifyClients_loop, Hroom by done. simpl.
  destruct (foldl_deliver fails msg (order set) h) as (Hs & Hw & Hc).
  assert (Hperm : order set ≡ₚ (k, ck) :: map_to_list (delete k set)).
  { rewrite (Horder set). rewrite <- (insert_delete_id set k ck) at 1 by done.
    apply map_to_list_insert, lookup_delete_eq. }
  assert (Hrest : Forall (λ s : nat * nat, fails s.1 = false)
                    (map_to_list (delete k set))).
  { apply Forall_forall. intros [conn c] Hin%elem_of_map_to_list. simpl.
    apply lookup_delete_Some in Hin as [Hne Hin]. apply Hothers; eauto. }
  exists (frame_for msg <$> filter (λ s : nat * nat, fails s.1 = false) (order set)).
  split.
  - destruct (foldl _ h (order set)) as [subs' wire' canc']; simpl in *.
    f_equal; [done..|]. rewrite Hc. f_equal.
    apply set_eq. intros x. rewrite elem_of_list_to_set, elem_of_singleton.
    rewrite list_elem_of_fmap. split.
    + intros ([conn c] & -> & Hin). simpl.
      apply list_elem_of_filter in Hin as [Hbad Hin]. simpl in Hbad.
      rewrite Hperm in Hin. apply elem_of_cons in Hin as [[= -> ->] | Hin]; [done|].
      rewrite Forall_forall in Hrest. specialize (Hrest _ Hin). simpl in Hrest.
      congruence.
    + intros ->. exists (k, ck). split; [done|].
      apply list_elem_of_filter. split; [done|].
      rewrite Hperm. left.
  - rewrite Hperm, filter_cons_False by (simpl; congruence).
    by rewrite filter_all.
Qed.

Lemma notifyClients_isolates_failure_witness :
  ∃ frames,
    notifyClients (λ conn, bool_decide (conn = 2)) map_to_list hello_R1 hub_R1 =
      mkHub (subscribes hub_R1) (wire hub_R1 ++ frames) ({[2]} ∪ cancelled hub_R1) ∧
    frames ≡ₚ frame_for hello_R1 <$> map_to_list (delete 2 ({[1 := 1; 2 := 2]} : gmap nat nat)).
Proof.
  apply (notifyClients_isolates_failure (λ conn, bool_decide (conn = 2))
           map_to_list hello_R1 hub_R1 {[1 := 1; 2 := 2]} 2 2).
  - intros set. reflexivity.
  - vm_compute. reflexivity.
  - vm_compute. reflexivity.
  - reflexivity.
  - intros conn Hne _. by apply bool_decide_eq_false.
Defined.

(** Which connections a broadcast writes to: the healthy members of the set
    stored under the event's room id, each once, and nobody else. *)
Lemma notifyClients_frames fails order msg h :
  range_order order →
  ∃ frames,
    wire (notifyClients fails order msg h) = wire h ++ frames ∧
    ∀ conn j, (conn, j) ∈ frames ↔
      j = marshal_Message msg ∧
      conn ∈ subscribers (RoomID msg) (subscribes h) ∧ fails conn = false.
Proof.
  intros Horder. rewrite notifyClients_loop by done.
  set (set := default ∅ (subscribes h !! RoomID msg)).
  destruct (foldl_deliver fails msg (order set) h) as (_ & -> & _).
  eexists. split; [reflexivity|]. intros conn j.
  rewrite list_elem_of_fmap. unfold frame_for, subscribers. split.
  - intros ([c k] & [= -> ->] & Hin). simpl.
    apply list_elem_of_filter in Hin as [Hok Hin]. simpl in Hok.
    apply elem_of_order in Hin; [|done].
    split; [reflexivity|]. split; [|done].
    subst set. destruct (subscribes h !! RoomID msg); simpl in Hin.
    + apply elem_of_dom. eauto.
    + by rewrite lookup_empty in Hin.
  - intros (-> & Hin & Hok).
    assert (∃ k, set !! conn = Some k) as [k Hk].
    { subst set. destruct (subscribes h !! RoomID msg); simpl.
      - by apply elem_of_dom in Hin.
      - set_solver. }
    exists (conn, k). split; [reflexivity|].
    apply list_elem_of_filter. split; [done|]. by apply elem_of_order.
Qed.

(** Registration in one assignment: the room's set, created empty when
    missing, gains the connection. *)
Lemma register_insert room conn k (subs : gmap string (gmap nat nat)) :
  register room conn k subs =
    <[room := <[conn := k]> (default ∅ (subs !! room))]> subs.
Proof.
  unfold register. cbv zeta.
  destruct (subs !! room) as [set|] eqn:Hroom; simpl.
  - by rewrite Hroom.
  - by rewrite lookup_insert_eq, insert_insert_eq.
Qed.

Lemma subscribers_register room' room conn k (subs : gmap string (gmap nat nat)) :
  subscribers room' (register room conn k subs) =
    if decide (room' = room) then {[conn]} ∪ subscribers room subs
    else subscribers room' subs.
Proof.
  rewrite register_insert. unfold subscribers.
  case_decide as Heq.
  - subst. rewrite lookup_insert_eq, dom_insert_L.
    destruct (subs !! room); simpl; [done|]. by rewrite dom_empty_L.
  - by rewrite lookup_insert_ne.
Qed.

(** ** The handlers *)

(** Whatever a handler issues is addressed with the raw URL parameter and
    tagged with the handler's own kind. *)
Lemma handler_issues c E req msg :
  msg ∈ (handler c E req).2 →
  RoomID msg = room_id req ∧ Kind msg = kind_of c.
Proof.
  destruct c; run_handler; repeat (case_match; simplify_eq; simpl in * );
    intros Hin; try (by apply elem_of_nil in Hin);
    apply list_elem_of_singleton in Hin as ->; done.
Qed.

Lemma kind_of_event_kinds c : kind_of c ∈ event_kinds.
Proof. destruct c; unfold event_kinds; simpl; set_solver. Qed.

(** A connection registered under [r1], and in no other set, is written to
    by the broadcast of an event issued for the request [req] exactly when
    [room_id req] is the same string as [r1] and the write succeeds. *)
Lemma register_then_notify E c req msg r1 conn k
    (subs : gmap string (gmap nat nat)) wire0 canc fails order :
  range_order order →
  (∀ room, conn ∉ subscribers room subs) →
  msg ∈ (handler c E req).2 →
  ∃ frames,
    wire (notifyClients fails order msg (mkHub (register r1 conn k subs) wire0 canc)) =
      wire0 ++ frames ∧
    ((conn, marshal_Message msg) ∈ frames ↔ r1 = room_id req ∧ fails conn = false) ∧
    (r1 ≠ room_id req → conn ∉ frames.*1).
Proof.
  intros Horder Hfresh [Hroom _]%handler_issues.
  destruct (notifyClients_frames fails order msg
              (mkHub (register r1 conn k subs) wire0 canc) Horder)
    as (frames & Hwire & Hframes).
  exists frames. split; [exact Hwire|].
  assert (Hin : conn ∈ subscribers (RoomID msg) (register r1 conn k subs) ↔
                r1 = room_id req).
  { rewrite subscribers_register, Hroom. case_decide as Heq.
    - split; [done|]. intros _. set_solver.
    - split; [|done]. intros Hold. by apply Hfresh in Hold. }
  split.
  - rewrite Hframes. simpl. rewrite Hin. naive_solver.
  - intros Hne [[conn' j] [-> Hj]]%list_elem_of_fmap. simpl in Hj.
    apply Hframes in Hj as (_ & Hmember & _). simpl in Hmember.
    by apply Hin in Hmember.
Qed.

(** The payload that [handleMarkMessageAsAnswer] issues is a
    [MessageCreated]: it marshals to the two members [id] and [message]. *)
Lemma handleMarkMessageAsAnswer_payload E req msg :
  msg ∈ (handleMarkMessageAsAnswer E req).2 →
  Kind msg = KindMessageAnswered ∧
  json_keys (marshal_Value (Value msg)) = ["id"; "message"].
Proof.
  run_handler; repeat (case_match; simplify_eq; simpl in * );
    intros Hin; try (by apply elem_of_nil in Hin);
    apply list_elem_of_singleton in Hin as ->; done.
Qed.

(** C2, on the code.  Marking message [message_m1] as answered in a room
    puts a [message_answered] event on the wire whose [value] has two
    members: [id] and an empty [message]. *)
Theorem message_answered_payload_on_the_wire :
  marshal_Message <$> (handleMarkMessageAsAnswer store_ok request_hyphenated).2 =
    [JObject [("kind", JString "message_answered");
              ("value", JObject [("id", JString message_m1);
                                 ("message", JString EmptyString)])]].
Proof. vm_compute. reflexivity. Qed.

(** C5. When the room does not exist in the store, [handleSubscribe]
    answers 400 "room not found" and stops there: the server is exactly as
    before, with no connection upgraded, no routine started and the table
    untouched. *)
Theorem handleSubscribe_room_not_found E req conn s roomID :
  uuid_Parse E (room_id req) = Some roomID →
  GetRoom E roomID = inl ErrNoRows →
  handleSubscribe_enter E req conn s = (Some (http_Error "room not found" 400), s).
Proof. intros Hparse Hroom. run_handler. by rewrite Hparse, Hroom. Qed.

Lemma handleSubscribe_room_not_found_witness :
  handleSubscribe_enter store_empty request_hyphenated 1 NewHandler =
    (Some (http_Error "room not found" 400), NewHandler).
Proof.
  apply (handleSubscribe_room_not_found store_empty request_hyphenated 1 NewHandler
           [18; 62; 69; 103; 232; 155; 18; 211; 164; 86; 66; 102; 20; 23; 64; 0]%N).
  - vm_compute. reflexivity.
  - reflexivity.
Defined.

(** C8. Each of the four state-changing handlers broadcasts on its success
    path only.  For every request the handler either answers with an error
    and issues nothing, or answers without error and issues exactly one
    event of its own kind for the request's room.  Once the checks before
    the store write have passed, a failing write gives the 500 answer and
    no broadcast, and a successful write gives exactly the one event built
    from its result. *)
Theorem broadcast_only_on_success E req :
  (∀ c, (is_error (handler c E req).1 ∧ (handler c E req).2 = []) ∨
        (¬ is_error (handler c E req).1 ∧
         ∃ v, (handler c E req).2 = [mkMessage (kind_of c) v (room_id req)])) ∧
  (∀ roomID text,
     uuid_Parse E (room_id req) = Some roomID → GetRoom E roomID = inr () →
     body_message req = Some text →
     match InsertMessage E roomID text with
     | inl _ =>
         handleCreateRoomMessages E req = (http_Error "something went wrong" 500, [])
     | inr messageID =>
         (handleCreateRoomMessages E req).2 =
           [mkMessage KindMessageCreated
              (VMessageCreated (mkMessageCreated (uuid_String E messageID) text))
              (room_id req)]
     end) ∧
  (∀ roomID messageID,
     uuid_Parse E (room_id req) = Some roomID → GetRoom E roomID = inr () →
     uuid_Parse E (message_id req) = Some messageID → GetMessage E messageID = inr () →
     match ReactToMessage E messageID with
     | inl _ =>
         handleReactToMessage E req = (http_Error "something went wrong" 500, [])
     | inr reactCount =>
         (handleReactToMessage E req).2 =
           [mkMessage KindMessageReactionIncreased
              (VMessageReaction (mkMessageReaction (uuid_String E messageID) reactCount))
              (room_id req)]
     end) ∧
  (∀ roomID messageID,
     uuid_Parse E (room_id req) = Some roomID → GetRoom E roomID = inr () →
     uuid_Parse E (message_id req) = Some messageID → GetMessage E messageID = inr () →
     match RemoveReactionFromMessage E messageID with
     | inl _ =>
         handleRemoveReactFromMessage E req = (http_Error "something went wrong" 500, [])
     | inr reactCount =>
         (handleRemoveReactFromMessage E req).2 =
           [mkMessage KindMessageReactionDecreased
              (VMessageReaction (mkMessageReaction (uuid_String E messageID) reactCount))
              (room_id req)]
     end) ∧
  (∀ roomID messageID,
     uuid_Parse E (room_id req) = Some roomID → GetRoom E roomID = inr () →
     uuid_Parse E (message_id req) = Some messageID → GetMessage E messageID = inr () →
     match MarkMessageAsAnswered E messageID with
     | Some _ =>
         handleMarkMessageAsAnswer E req = (http_Error "something went wrong" 500, [])
     | None =>
         (handleMarkMessageAsAnswer E req).2 =
           [mkMessage KindMessageAnswered
              (VMessageCreated (mkMessageCreated (uuid_String E messageID) EmptyString))
              (room_id req)]
     end).
Proof.
  split.
  { intros c. destruct c; run_handler;
      repeat (case_match; simplify_eq; simpl in * );
      first [ left; split; [unfold StatusBadRequest, StatusInternalServerError; lia | reflexivity]
            | right; split; [tauto | eexists; reflexivity] ]. }
  repeat split; intros; run_handler;
    repeat (case_match; simplify_eq; simpl in * );
    first [reflexivity | congruence].
Qed.

Lemma broadcast_only_on_success_witness :
  handleCreateRoomMessages store_down request_hyphenated =
    (http_Error "something went wrong" 500, []) ∧
  (handleCreateRoomMessages store_ok request_hyphenated).2 =
    [mkMessage KindMessageCreated
       (VMessageCreated (mkMessageCreated message_m1 "hello")) room_hyphenated] ∧
  handleMarkMessageAsAnswer store_down request_hyphenated =
    (http_Error "something went wrong" 500, []) ∧
  (handleReactToMessage store_ok request_hyphenated).2 =
    [mkMessage KindMessageReactionIncreased
       (VMessageReaction (mkMessageReaction message_m1 3)) room_hyphenated].
Proof.
  destruct (broadcast_only_on_success store_down request_hyphenated)
    as (_ & Hcreate_down & _ & _ & Hmark_down).
  destruct (broadcast_only_on_success store_ok request_hyphenated)
    as (_ & Hcreate_ok & Hreact_ok & _).
  assert (Hroom : google_uuid_Parse room_hyphenated =
                  Some [18; 62; 69; 103; 232; 155; 18; 211; 164; 86; 66; 102; 20; 23; 64; 0]%N)
    by (vm_compute; reflexivity).
  assert (Hmsg : google_uuid_Parse message_m1 = Some m1_uuid)
    by (vm_compute; reflexivity).
  split; [|split; [|split]].
  - exact (Hcreate_down _ "hello" Hroom eq_refl eq_refl).
  - etrans; [exact (Hcreate_ok _ "hello" Hroom eq_refl eq_refl)|].
    vm_compute. reflexivity.
  - exact (Hmark_down _ _ Hroom eq_refl Hmsg eq_refl).
  - etrans; [exact (Hreact_ok _ _ Hroom eq_refl Hmsg eq_refl)|].
    vm_compute. reflexivity.
Defined.

(** ** Reachable states *)

Lemma subscribers_deregister_any room' room conn (subs : gmap string (gmap nat nat)) :
  subscribers room' (deregister room conn subs) =
    if decide (room' = room) then subscribers room subs ∖ {[conn]}
    else subscribers room' subs.
Proof.
  case_decide as Heq; [subst; apply subscribers_deregister|].
  unfold subscribers, deregister.
  destruct (subs !! room); [by rewrite lookup_insert_ne | done].
Qed.

Lemma step_table_tracks_routines s s' :
  step s s' → table_tracks_routines s → table_tracks_routines s'.
Proof.
  intros Hstep Hinv room0 conn0.
  destruct Hstep as [E req conn Hfree | conn room Hpc | conn Hpc
                    | conn room Hpc Hdone | conn room Hpc | conn room Hpc
                    | c E req | fails order msg before after Hpending Horder].
  - unfold handleSubscribe_enter. destruct (handleSubscribe_admit E req); simpl;
      [apply Hinv|].
    intros Hin. destruct (Hinv _ _ Hin) as [Hr | Hr];
      (rewrite lookup_insert_ne by congruence); auto.
  - simpl. rewrite subscribers_register. intros Hin.
    destruct (decide (conn0 = conn)) as [-> | Hne].
    + rewrite lookup_insert_eq. case_decide as Heq; [subst; auto|].
      destruct (Hinv _ _ Hin); congruence.
    + rewrite lookup_insert_ne by done. apply Hinv.
      case_decide; [subst; set_solver | done].
  - simpl. apply Hinv.
  - simpl. intros Hin. destruct (decide (conn0 = conn)) as [-> | Hne].
    + rewrite lookup_insert_eq. destruct (Hinv _ _ Hin); [|congruence].
      right. congruence.
    + rewrite lookup_insert_ne by done. by apply Hinv.
  - simpl. rewrite subscribers_deregister_any. intros Hin.
    destruct (decide (conn0 = conn)) as [-> | Hne].
    + case_decide as Heq; [set_solver|].
      destruct (Hinv _ _ Hin); congruence.
    + rewrite lookup_insert_ne by done. apply Hinv.
      case_decide; [subst; set_solver | done].
  - simpl. intros Hin. destruct (decide (conn0 = conn)) as [-> | Hne].
    + destruct (Hinv _ _ Hin); congruence.
    + rewrite lookup_insert_ne by done. by apply Hinv.
  - simpl. apply Hinv.
  - simpl. rewrite notifyClients_subscribes. apply Hinv.
Qed.

(** Induction over the runs of the server, extending a run at its end. *)
Lemma reachable_ind (P : Server → Prop) :
  P NewHandler →
  (∀ s s', reachable s → step s s' → P s → P s') →
  ∀ s, reachable s → P s.
Proof.
  intros Hinit Hstep s Hreach.
  refine (rtc_ind_r (R := step) P NewHandler Hinit _ s Hreach).
  intros y z Hy Hyz. by apply Hstep.
Qed.

Lemma reachable_table_tracks_routines s :
  reachable s → table_tracks_routines s.
Proof.
  revert s. apply reachable_ind.
  - intros room conn. unfold subscribers. simpl. rewrite lookup_empty. set_solver.
  - eauto using step_table_tracks_routines.
Qed.

Lemma events_of_snoc conn h e :
  events_of conn (h ++ [e]) =
    events_of conn h ++ (if decide (event_conn e = conn) then [e] else []).
Proof.
  unfold events_of. by rewrite filter_app.
Qed.

Lemma advance_history_tracks_routines conn room to ev h s :
  history_tracks_routines s →
  event_conn ev = conn →
  events_of conn (history s) ++ [ev] = take (progress to) (lifecycle room conn) →
  history_tracks_routines (advance conn room to ev h s).
Proof.
  intros Hinv Hev Hnext conn0. simpl. rewrite events_of_snoc.
  destruct (decide (conn0 = conn)) as [-> | Hne].
  - rewrite lookup_insert_eq, decide_True by done. exact Hnext.
  - rewrite lookup_insert_ne, decide_False, app_nil_r by congruence. apply Hinv.
Qed.

Lemma step_history_tracks_routines s s' :
  step s s' → history_tracks_routines s → history_tracks_routines s'.
Proof.
  intros Hstep Hinv.
  destruct Hstep as [E req conn Hfree | conn room Hpc | conn Hpc
                    | conn room Hpc Hdone | conn room Hpc | conn room Hpc
                    | c E req | fails order msg before after Hpending Horder];
    try exact Hinv;
    try (apply advance_history_tracks_routines; [done | done |];
         rewrite (Hinv conn), Hpc; reflexivity).
  unfold handleSubscribe_enter. destruct (handleSubscribe_admit E req); simpl;
    [exact Hinv|].
  apply advance_history_tracks_routines; [done | done |].
  rewrite (Hinv conn), Hfree. reflexivity.
Qed.

Lemma reachable_history_tracks_routines s :
  reachable s → history_tracks_routines s.
Proof.
  revert s. apply reachable_ind.
  - intros conn. simpl. by rewrite lookup_empty.
  - eauto using step_history_tracks_routines.
Qed.

Lemma notifyClients_cancelled_mono fails order msg h :
  cancelled h ⊆ cancelled (notifyClients fails order msg h).
Proof.
  unfold notifyClients. destruct (subscribes h !! RoomID msg) as [set|]; [|done].
  case_decide; [done|].
  destruct (foldl_deliver fails msg (order set) h) as (_ & _ & ->). set_solver.
Qed.

Lemma advance_unblocked_were_cancelled conn room to ev h s :
  unblocked_were_cancelled s →
  cancelled h = cancelled (hub s) →
  ((3 ≤ progress to)%nat → cancel_of conn ∈ cancelled (hub s)) →
  unblocked_were_cancelled (advance conn room to ev h s).
Proof.
  intros Hinv Hsame Hnew conn0 r. simpl. rewrite Hsame.
  destruct (decide (conn0 = conn)) as [-> | Hne].
  - rewrite lookup_insert_eq. intros [= <-]. exact Hnew.
  - rewrite lookup_insert_ne by done. apply Hinv.
Qed.

Lemma step_unblocked_were_cancelled s s' :
  step s s' → unblocked_were_cancelled s → unblocked_were_cancelled s'.
Proof.
  intros Hstep Hinv.
  destruct Hstep as [E req conn Hfree | conn room Hpc | conn Hpc
                    | conn room Hpc Hdone | conn room Hpc | conn room Hpc
                    | c E req | fails order msg before after Hpending Horder].
  - unfold handleSubscribe_enter. destruct (handleSubscribe_admit E req); simpl;
      [exact Hinv|].
    apply advance_unblocked_were_cancelled; [done | done | simpl; lia].
  - apply advance_unblocked_were_cancelled; [done | done | simpl; lia].
  - intros conn0 r Hr Hpast. simpl. specialize (Hinv conn0 r Hr Hpast). set_solver.
  - apply advance_unblocked_were_cancelled; done.
  - apply advance_unblocked_were_cancelled; [done | done |].
    intros _. apply (Hinv _ _ Hpc). simpl. lia.
  - apply advance_unblocked_were_cancelled; [done | done |].
    intros _. apply (Hinv _ _ Hpc). simpl. lia.
  - exact Hinv.
  - intros conn0 r Hr Hpast. simpl.
    apply notifyClients_cancelled_mono. by apply (Hinv conn0 r).
Qed.

Lemma reachable_unblocked_were_cancelled s :
  reachable s → unblocked_were_cancelled s.
Proof.
  revert s. apply reachable_ind.
  - intros conn r. simpl. by rewrite lookup_empty.
  - eauto using step_unblocked_were_cancelled.
Qed.

Lemma advance_wire_carries_issued conn room to ev h s :
  wire_carries_issued s → wire h = wire (hub s) →
  wire_carries_issued (advance conn room to ev h s).
Proof. intros [Hpending Hwire] Hsame. split; simpl; [done|]. by rewrite Hsame. Qed.

Lemma step_wire_carries_issued s s' :
  step s s' → wire_carries_issued s → wire_carries_issued s'.
Proof.
  intros Hstep Hinv.
  destruct Hstep as [E req conn Hfree | conn room Hpc | conn Hpc
                    | conn room Hpc Hdone | conn room Hpc | conn room Hpc
                    | c E req | fails order msg before after Hpending Horder];
    try (by apply advance_wire_carries_issued).
  - unfold handleSubscribe_enter. destruct (handleSubscribe_admit E req); simpl;
      [exact Hinv|]. by apply advance_wire_carries_issued.
  - exact Hinv.
  - destruct Hinv as [Hpend Hwire]. split; simpl; [|exact Hwire].
    apply Forall_app. split; [exact Hpend|].
    apply Forall_forall. intros msg Hmsg. by exists c, E, req.
  - destruct Hinv as [Hpend Hwire]. rewrite Hpending in Hpend.
    apply Forall_app in Hpend as [Hbefore Hrest].
    apply Forall_cons in Hrest as [Hmsg Hafter].
    split; simpl; [by apply Forall_app|].
    destruct (notifyClients_frames fails order msg (hub s) Horder)
      as (frames & -> & Hframes).
    intros conn j [Hold | Hnew]%elem_of_app; [by eapply Hwire|].
    apply Hframes in Hnew as (-> & _). by exists msg.
Qed.

Lemma reachable_wire_carries_issued s :
  reachable s → wire_carries_issued s.
Proof.
  revert s. apply reachable_ind.
  - split; simpl; [constructor|]. intros conn j Hin. by apply elem_of_nil in Hin.
  - eauto using step_wire_carries_issued.
Qed.

Lemma step_routines_in_table s s' :
  step s s' → routines_in_table s → routines_in_table s'.
Proof.
  intros Hstep Hinv room0 conn0.
  destruct Hstep as [E req conn Hfree | conn room Hpc | conn Hpc
                    | conn room Hpc Hdone | conn room Hpc | conn room Hpc
                    | c E req | fails order msg before after Hpending Horder].
  - unfold handleSubscribe_enter. destruct (handleSubscribe_admit E req); simpl;
      [apply Hinv|].
    destruct (decide (conn0 = conn)) as [-> | Hne].
    + rewrite lookup_insert_eq. intros [? | ?]; congruence.
    + rewrite lookup_insert_ne by done. apply Hinv.
  - simpl. rewrite subscribers_register.
    destruct (decide (conn0 = conn)) as [-> | Hne].
    + rewrite lookup_insert_eq. intros [[= ->] | ?]; [|congruence].
      rewrite decide_True by done. set_solver.
    + rewrite lookup_insert_ne by done. intros Hin%Hinv.
      case_decide; [subst; set_solver | done].
  - simpl. apply Hinv.
  - simpl. destruct (decide (conn0 = conn)) as [-> | Hne].
    + rewrite lookup_insert_eq. intros [? | [= ->]]; [congruence|].
      apply Hinv. by left.
    + rewrite lookup_insert_ne by done. apply Hinv.
  - simpl. rewrite subscribers_deregister_any.
    destruct (decide (conn0 = conn)) as [-> | Hne].
    + rewrite lookup_insert_eq. intros [? | ?]; congruence.
    + rewrite lookup_insert_ne by done. intros Hin%Hinv.
      case_decide; [subst; set_solver | done].
  - simpl. destruct (decide (conn0 = conn)) as [-> | Hne].
    + rewrite lookup_insert_eq. intros [? | ?]; congruence.
    + rewrite lookup_insert_ne by done. apply Hinv.
  - simpl. apply Hinv.
  - simpl. rewrite notifyClients_subscribes. apply Hinv.
Qed.

Lemma reachable_routines_in_table s :
  reachable s → routines_in_table s.
Proof.
  revert s. apply reachable_ind.
  - intros room conn. simpl. rewrite lookup_empty. intros [? | ?]; congruence.
  - eauto using step_routines_in_table.
Qed.

Lemma reachable_step s s' : reachable s → step s s' → reachable s'.
Proof. unfold reachable. intros Hs Hstep. by eapply rtc_r. Qed.

(** The run set out above is a run of the server. *)
Lemma run_notified_reachable : reachable run_notified.
Proof.
  assert (H1 : reachable run_upgraded).
  { apply (reachable_step NewHandler); [apply rtc_refl|].
    apply (step_subscribe NewHandler store_ok request_hyphenated 1). reflexivity. }
  assert (H2 : reachable run_subscribed).
  { apply (reachable_step run_upgraded); [exact H1|].
    apply step_register. vm_compute. reflexivity. }
  assert (H3 : reachable run_posted).
  { apply (reachable_step run_subscribed); [exact H2|]. apply step_serve. }
  apply (reachable_step run_posted); [exact H3|].
  apply step_notify; [vm_compute; reflexivity | intros set; reflexivity].
Qed.

Lemma run_subscribed_reachable : reachable run_subscribed.
Proof.
  apply (reachable_step run_upgraded).
  - apply (reachable_step NewHandler); [apply rtc_refl|].
    apply (step_subscribe NewHandler store_ok request_hyphenated 1). reflexivity.
  - apply step_register. vm_compute. reflexivity.
Qed.

Lemma run_returned_reachable : reachable run_returned.
Proof.
  assert (H5 : reachable run_cancelled).
  { apply (reachable_step run_notified); [exact run_notified_reachable|].
    apply step_request_done. vm_compute. eauto. }
  assert (H6 : reachable run_unblocked).
  { apply (reachable_step run_cancelled); [exact H5|].
    apply step_unblock; [vm_compute; reflexivity|].
    apply (bool_decide_unpack _). vm_compute. exact I. }
  assert (H7 : reachable run_deregistered).
  { apply (reachable_step run_unblocked); [exact H6|].
    apply step_deregister. vm_compute. reflexivity. }
  apply (reachable_step run_deregistered); [exact H7|].
  apply step_return. vm_compute. reflexivity.
Qed.

(** C4. In every run, the events of one connection are an initial part of
    upgrade, register, unblock, deregister, close, in this order.  The
    handler is parked between register and unblock, and leaves that point
    only in a state where its context is already done.  Once the handler
    has returned all five have happened, deregistration before the close
    that ends it, and the connection is in no room's set. *)
Theorem lifecycle_in_order s conn :
  reachable s →
  (∃ room, events_of conn (history s) `prefix_of` lifecycle room conn) ∧
  (∀ room, routines s !! conn = Some (mkRoutine room Subscribed) →
     events_of conn (history s) = [EvUpgrade conn; EvRegister room conn] ∧
     conn ∈ subscribers room (subscribes (hub s))) ∧
  (∀ s', step s s' → EvUnblock conn ∈ history s' → EvUnblock conn ∉ history s →
     ∃ room, routines s !! conn = Some (mkRoutine room Subscribed) ∧
             cancel_of conn ∈ cancelled (hub s)) ∧
  (∀ room, routines s !! conn = Some (mkRoutine room Returned) →
     events_of conn (history s) = lifecycle room conn ∧
     cancel_of conn ∈ cancelled (hub s) ∧
     ∀ room', conn ∉ subscribers room' (subscribes (hub s))).
Proof.
  intros Hreach.
  pose proof (reachable_history_tracks_routines s Hreach conn) as Hhist.
  pose proof (reachable_table_tracks_routines s Hreach) as Htable.
  pose proof (reachable_routines_in_table s Hreach) as Hin.
  pose proof (reachable_unblocked_were_cancelled s Hreach) as Hdone.
  split; [|split; [|split]].
  - rewrite Hhist. destruct (routines s !! conn) as [r|].
    + exists (rawRoomID r). apply prefix_take.
    + exists EmptyString. apply prefix_nil.
  - intros room Hpc. rewrite Hhist, Hpc. split; [reflexivity|].
    apply Hin. by left.
  - intros s' Hstep Hnew Hold.
    destruct Hstep as [E req c Hfree | c room Hpc | c Hpc
                      | c room Hpc Hguard | c room Hpc | c room Hpc
                      | ch E req | fails order msg before after Hpending Horder];
      simpl in Hnew; try done;
      try (apply elem_of_app in Hnew as [? | Hev%list_elem_of_singleton];
           [done | simplify_eq]).
    + unfold handleSubscribe_enter in Hnew.
      destruct (handleSubscribe_admit E req); simpl in Hnew; [done|].
      apply elem_of_app in Hnew as [? | Hev%list_elem_of_singleton]; [done | simplify_eq].
    + by exists room.
  - intros room Hpc. rewrite Hhist, Hpc. split; [reflexivity|].
    split; [apply (Hdone _ _ Hpc); simpl; lia|].
    intros room' Hmember. destruct (Htable _ _ Hmember); congruence.
Qed.

Lemma lifecycle_in_order_witness :
  events_of 1 (history run_returned) =
    [EvUpgrade 1; EvRegister room_hyphenated 1; EvUnblock 1;
     EvDeregister room_hyphenated 1; EvClose 1] ∧
  cancel_of 1 ∈ cancelled (hub run_returned) ∧
  ∀ room', 1 ∉ subscribers room' (subscribes (hub run_returned)).
Proof.
  destruct (lifecycle_in_order run_returned 1 run_returned_reachable)
    as (_ & _ & _ & Hreturned).
  apply (Hreturned room_hyphenated). vm_compute. reflexivity.
Defined.

(** C9. In every run a connection is in the set of at most one room.  A
    step that puts a connection into a room's set finds it in no set at
    all: it is the registration of a freshly upgraded connection, which
    afterwards is in that one set only. *)
Theorem connection_in_one_room s :
  reachable s →
  (∀ conn room1 room2,
     conn ∈ subscribers room1 (subscribes (hub s)) →
     conn ∈ subscribers room2 (subscribes (hub s)) → room1 = room2) ∧
  (∀ s' conn room,
     step s s' →
     conn ∈ subscribers room (subscribes (hub s')) →
     conn ∉ subscribers room (subscribes (hub s)) →
     routines s !! conn = Some (mkRoutine room Upgraded) ∧
     (∀ room', conn ∉ subscribers room' (subscribes (hub s))) ∧
     (∀ room', conn ∈ subscribers room' (subscribes (hub s')) → room' = room)).
Proof.
  intros Hreach.
  assert (Hone : ∀ t, reachable t → ∀ conn room1 room2,
            conn ∈ subscribers room1 (subscribes (hub t)) →
            conn ∈ subscribers room2 (subscribes (hub t)) → room1 = room2).
  { intros t Ht conn room1 room2 H1 H2.
    pose proof (reachable_table_tracks_routines t Ht) as Htable.
    destruct (Htable _ _ H1), (Htable _ _ H2); congruence. }
  split; [by apply Hone|].
  intros s' conn room Hstep Hafter Hbefore.
  pose proof (reachable_table_tracks_routines s Hreach) as Htable.
  assert (Hpc : routines s !! conn = Some (mkRoutine room Upgraded)).
  { destruct Hstep as [E req c Hfree | c room0 Hpc | c Hpc
                      | c room0 Hpc Hguard | c room0 Hpc | c room0 Hpc
                      | ch E req | fails order msg before after Hpending Horder];
      simpl in Hafter; try done.
    - unfold handleSubscribe_enter in Hafter.
      by destruct (handleSubscribe_admit E req).
    - rewrite subscribers_register in Hafter. case_decide; [subst|done].
      apply elem_of_union in Hafter as [->%elem_of_singleton | ?]; done.
    - rewrite subscribers_deregister_any in Hafter.
      case_decide; [subst; set_solver | done].
    - by rewrite notifyClients_subscribes in Hafter. }
  split; [exact Hpc|]. split.
  - intros room' Hmember. destruct (Htable _ _ Hmember); congruence.
  - intros room' Hmember.
    apply (Hone s' (reachable_step s s' Hreach Hstep) conn); done.
Qed.

Lemma connection_in_one_room_witness :
  1 ∈ subscribers room_hyphenated (subscribes (hub run_subscribed)) ∧
  ∀ room, 1 ∈ subscribers room (subscribes (hub run_subscribed)) →
          room = room_hyphenated.
Proof.
  destruct (connection_in_one_room run_subscribed run_subscribed_reachable)
    as (Hone & _).
  assert (Hin : 1 ∈ subscribers room_hyphenated (subscribes (hub run_subscribed))).
  { apply (bool_decide_unpack _). vm_compute. exact I. }
  split; [exact Hin|].
  intros room Hroom. exact (Hone 1 room room_hyphenated Hroom Hin).
Defined.

(** What an issued message marshals to: the document of its kind. *)
Lemma issued_event_document msg : issued msg → event_document (marshal_Message msg).
Proof.
  intros (c & E & req & Hin). unfold event_document.
  destruct c; run_handler; repeat (case_match; simplify_eq; simpl in * );
    try (by apply elem_of_nil in Hin);
    apply list_elem_of_singleton in Hin as ->; unfold marshal_Message; simpl;
    [ left | right; right; left | right; right; right | right; left ]; eauto.
Qed.

Lemma event_document_shape j :
  event_document j → wire_shape j ∧ json_keys j = ["kind"; "value"].
Proof.
  unfold wire_shape, event_kinds.
  intros [(id & text & ->) | [(id & ->) | [(id & n & ->) | (id & n & ->)]]];
    (split; [eexists _, _; split; [reflexivity | set_solver] | reflexivity]).
Qed.

(** In every run, every frame written to a subscriber is the document of
    an event issued by one of the four handlers: an object with exactly the
    members [kind] and [value], the value holding [id] and [message] for
    [message_created] and for [message_answered] (there with an empty
    message), [id] and [react_count] for the two reaction kinds.  The
    document does not depend on the event's [RoomID]. *)
Lemma wire_frames_by_kind s :
  reachable s →
  (∀ conn j, (conn, j) ∈ wire (hub s) →
     event_document j ∧ ∃ msg, issued msg ∧ j = marshal_Message msg) ∧
  (∀ kind value room1 room2,
     marshal_Message (mkMessage kind value room1) =
     marshal_Message (mkMessage kind value room2)).
Proof.
  intros Hreach. split; [|reflexivity].
  intros conn j Hin.
  destruct (reachable_wire_carries_issued s Hreach) as [_ Hwire].
  destruct (Hwire conn j Hin) as (msg & Hissued & ->).
  split; [by apply issued_event_document | by exists msg].
Qed.

Lemma run_answer_notified_reachable : reachable run_answer_notified.
Proof.
  apply (reachable_step run_answer_posted).
  - apply (reachable_step run_subscribed); [exact run_subscribed_reachable|].
    apply step_serve.
  - apply step_notify; [vm_compute; reflexivity | intros set; reflexivity].
Qed.

(** C3, on the code.  A client subscribes to a room and a question of that
    room is marked as answered: the frame the subscriber is sent has the
    members [kind] and [value] and no room id, but its [value] is not the
    payload of a [message_answered] event: beside [id] it holds an empty
    [message]. *)
Theorem message_answered_frame_in_a_run :
  reachable run_answer_notified ∧
  wire (hub run_answer_notified) =
    [(1, JObject [("kind", JString "message_answered");
                  ("value", JObject [("id", JString message_m1);
                                     ("message", JString EmptyString)])])].
Proof.
  split; [exact run_answer_notified_reachable|]. vm_compute. reflexivity.
Qed.

(** C10. The table is keyed by the raw room id of the subscription URL.
    In a running server, [handleSubscribe] admits the request [req_sub] for
    a new connection and registers it: the routine it starts, and with it
    the key of the table, carries [room_id req_sub] as it stands in the
    URL.  The broadcast of an event issued for the request [req_pub] then
    writes to that connection exactly when [room_id req_pub] is the same
    string (and the write succeeds).  Two different spellings that parse to
    the same UUID therefore do not reach each other's subscribers. *)
Theorem registry_keyed_by_raw_room_id E_sub req_sub E c req_pub msg conn s room fails order :
  reachable s →
  routines s !! conn = None →
  routines (handleSubscribe_enter E_sub req_sub conn s).2 !! conn =
    Some (mkRoutine room Upgraded) →
  msg ∈ (handler c E req_pub).2 →
  range_order order →
  let upgraded := (handleSubscribe_enter E_sub req_sub conn s).2 in
  let registered := handleSubscribe_register conn room upgraded in
  step s upgraded ∧ step upgraded registered ∧
  room = room_id req_sub ∧
  conn ∈ subscribers (room_id req_sub) (subscribes (hub registered)) ∧
  ∃ frames,
    wire (notifyClients fails order msg (hub registered)) =
      wire (hub registered) ++ frames ∧
    ((conn, marshal_Message msg) ∈ frames ↔
     room_id req_sub = room_id req_pub ∧ fails conn = false) ∧
    (uuid_Parse E (room_id req_sub) = uuid_Parse E (room_id req_pub) →
     room_id req_sub ≠ room_id req_pub → conn ∉ frames.*1).
Proof.
  intros Hreach Hfree Hpc Hmsg Horder upgraded registered.
  assert (Hfresh : ∀ r, conn ∉ subscribers r (subscribes (hub s))).
  { intros r Hin.
    destruct (reachable_table_tracks_routines s Hreach _ _ Hin); congruence. }
  assert (Hroom : room = room_id req_sub ∧ hub upgraded = hub s).
  { subst upgraded. unfold handleSubscribe_enter in *.
    destruct (handleSubscribe_admit E_sub req_sub) as [resp | admitted] eqn:Hadmit;
      simpl in *; [congruence|].
    rewrite lookup_insert_eq in Hpc. injection Hpc as <-.
    split; [|reflexivity]. revert Hadmit. run_handler.
    repeat (case_match; simplify_eq; simpl in * ); congruence. }
  destruct Hroom as [-> Hhub].
  split; [by apply step_subscribe|]. split; [by apply step_register|].
  split; [reflexivity|].
  split.
  { subst registered. simpl. rewrite subscribers_register, decide_True by done.
    set_solver. }
  subst registered. simpl. rewrite Hhub.
  destruct (register_then_notify E c req_pub msg (room_id req_sub) conn
              (cancel_of conn) (subscribes (hub s)) (wire (hub s)) (cancelled (hub s))
              fails order Horder Hfresh Hmsg) as (frames & Hwire & Hiff & Hapart).
  exists frames. split; [exact Hwire|]. split; [exact Hiff|].
  intros _. exact Hapart.
Qed.

Lemma registry_keyed_by_raw_room_id_witness :
  google_uuid_Parse room_hyphenated = google_uuid_Parse room_compact ∧
  1 ∈ subscribers room_hyphenated (subscribes (hub run_subscribed)) ∧
  ∃ frames,
    wire (notifyClients (λ _, false) map_to_list
            (mkMessage KindMessageCreated
               (VMessageCreated (mkMessageCreated message_m1 "hello")) room_compact)
            (hub run_subscribed)) = wire (hub run_subscribed) ++ frames ∧
    1 ∉ frames.*1.
Proof.
  split; [vm_compute; reflexivity|].
  destruct (registry_keyed_by_raw_room_id store_ok request_hyphenated store_ok
              CreateMessage request_compact
              (mkMessage KindMessageCreated
                 (VMessageCreated (mkMessageCreated message_m1 "hello")) room_compact)
              1 NewHandler room_hyphenated (λ _, false) map_to_list)
    as (_ & _ & _ & Hin & frames & Hwire & _ & Hapart).
  - apply rtc_refl.
  - reflexivity.
  - vm_compute. reflexivity.
  - vm_compute. constructor.
  - intros set. reflexivity.
  - split; [exact Hin|]. exists frames. split; [exact Hwire|].
    apply Hapart; [vm_compute; reflexivity | discriminate].
Defined.

(** ** Worked runs *)

(** A parked subscription can always wind down: once the request's context
    ends, the handler unblocks, deregisters and returns. *)
Lemma subscribed_can_return s conn room :
  routines s !! conn = Some (mkRoutine room Subscribed) →
  rtc step s
    (handleSubscribe_return conn room
       (handleSubscribe_deregister conn room
          (handleSubscribe_unblock conn room (request_done conn s)))).
Proof.
  intros Hpc.
  eapply rtc_l; [apply (step_request_done s conn); eauto|].
  eapply rtc_l; [apply (step_unblock _ conn room); simpl; [done | set_solver]|].
  eapply rtc_l; [apply (step_deregister _ conn room); simpl; apply lookup_insert_eq|].
  eapply rtc_l; [apply (step_return _ conn room); simpl; apply lookup_insert_eq|].
  apply rtc_refl.
Qed.

(** Room [R1] has two subscribers; one [message_created] event reaches both. *)
Example both_subscribers_receive :
  wire (notifyClients (λ _, false) map_to_list hello_R1 hub_R1) =
    [(2, JObject [("kind", JString "message_created");
                  ("value", JObject [("id", JString "m1"); ("message", JString "hello")])]);
     (1, JObject [("kind", JString "message_created");
                  ("value", JObject [("id", JString "m1"); ("message", JString "hello")])])].
Proof. vm_compute. reflexivity. Qed.

(** A reaction event carries the message id and the current count. *)
Example reaction_payload :
  marshal_Message <$> (handleReactToMessage store_ok request_hyphenated).2 =
    [JObject [("kind", JString "message_reaction_increased");
              ("value", JObject [("id", JString message_m1);
                                 ("react_count", JNumber 3)])]].
Proof. vm_compute. reflexivity. Qed.

(** Both spellings of the room id pass validation and name the same room. *)
Example spellings_parse_alike :
  google_uuid_Parse room_hyphenated = google_uuid_Parse room_compact ∧
  room_hyphenated ≠ room_compact.
Proof. split; [vm_compute; reflexivity | discriminate]. Qed.

(** After the handler has returned, a broadcast to its room writes nothing. *)
Example no_frame_after_return :
  wire (notifyClients (λ _, false) map_to_list
          (mkMessage KindMessageAnswered
             (VMessageCreated (mkMessageCreated message_m1 EmptyString)) room_hyphenated)
          (hub run_returned)) = wire (hub run_returned).
Proof. vm_compute. reflexivity. Qed.

(** * Further properties *)

(** ** The table under registration and deregistration *)

(** X1. Registering a connection that is not yet in the room's set and
    deregistering it again restores every room's membership, but not always
    the table: the room keeps an entry, an empty set if it had none. *)
Theorem deregister_register room conn k (subs : gmap string (gmap nat nat)) :
  conn ∉ subscribers room subs →
  deregister room conn (register room conn k subs) =
    <[room := default ∅ (subs !! room)]> subs ∧
  (∀ room', subscribers room' (deregister room conn (register room conn k subs)) =
            subscribers room' subs) ∧
  (subs !! room = None →
   deregister room conn (register room conn k subs) !! room = Some ∅).
Proof.
  intros Hfresh.
  assert (Hset : default ∅ (subs !! room) !! conn = None).
  { unfold subscribers in Hfresh. destruct (subs !! room) as [set|]; simpl.
    - by apply not_elem_of_dom.
    - apply lookup_empty. }
  assert (Heq : deregister room conn (register room conn k subs) =
                <[room := default ∅ (subs !! room)]> subs).
  { rewrite register_insert. unfold deregister.
    rewrite lookup_insert_eq, insert_insert_eq. f_equal.
    by apply delete_insert_id. }
  split; [exact Heq|]. split.
  - intros room'. rewrite Heq. unfold subscribers.
    destruct (decide (room' = room)) as [-> | Hne].
    + rewrite lookup_insert_eq. destruct (subs !! room); simpl; [done|].
      apply dom_empty_L.
    + by rewrite lookup_insert_ne.
  - intros Hnone. rewrite Heq, Hnone. apply lookup_insert_eq.
Qed.

Lemma deregister_register_witness :
  deregister "R2" 5 (register "R2" 5 5 (subscribes hub_R1)) =
    <[ "R2" := ∅ ]> (subscribes hub_R1) ∧
  deregister "R2" 5 (register "R2" 5 5 (subscribes hub_R1)) !! "R2" = Some ∅.
Proof.
  destruct (deregister_register "R2" 5 5 (subscribes hub_R1)) as (Heq & _ & Hkept).
  - unfold subscribers. simpl. rewrite lookup_singleton_ne by discriminate.
    apply not_elem_of_empty.
  - split; [exact Heq|]. apply Hkept. vm_compute. reflexivity.
Defined.

Lemma dom_register room conn k (subs : gmap string (gmap nat nat)) :
  dom (register room conn k subs) = {[room]} ∪ dom subs.
Proof. rewrite register_insert. apply dom_insert_L. Qed.

Lemma dom_deregister room conn (subs : gmap string (gmap nat nat)) :
  dom (deregister room conn subs) = dom subs.
Proof.
  unfold deregister. destruct (subs !! room) as [set|] eqn:Hroom; [|done].
  rewrite dom_insert_L. apply elem_of_dom_2 in Hroom. set_solver.
Qed.

Lemma step_rooms_kept s s' :
  step s s' → dom (subscribes (hub s)) ⊆ dom (subscribes (hub s')).
Proof.
  intros Hstep.
  destruct Hstep as [E req conn Hfree | conn room Hpc | conn Hpc
                    | conn room Hpc Hdone | conn room Hpc | conn room Hpc
                    | c E req | fails order msg before after Hpending Horder];
    simpl; try done.
  - unfold handleSubscribe_enter. by destruct (handleSubscribe_admit E req).
  - rewrite dom_register. set_solver.
  - by rewrite dom_deregister.
  - by rewrite notifyClients_subscribes.
Qed.

(** X2. No step of the server removes a room from the table: a room id
    that has an entry keeps it for the rest of the run, whether or not any
    subscriber is left in its set. *)
Theorem rooms_are_never_removed s s' room :
  rtc step s s' →
  is_Some (subscribes (hub s) !! room) →
  is_Some (subscribes (hub s') !! room).
Proof.
  intros Hrun. rewrite <- !elem_of_dom.
  induction Hrun as [|s t s' Hstep _ IH]; [done|].
  intros Hin. apply IH. by apply (step_rooms_kept s t).
Qed.

Lemma run_winds_down : rtc step run_subscribed run_returned.
Proof.
  apply (rtc_l _ _ run_posted); [apply step_serve|].
  apply (rtc_l _ _ run_notified).
  { apply (step_notify run_posted (λ _, false) map_to_list
             (mkMessage KindMessageCreated
                (VMessageCreated (mkMessageCreated message_m1 "hello")) room_hyphenated)
             [] []); [vm_compute; reflexivity | intros set; reflexivity]. }
  apply (rtc_l _ _ run_cancelled).
  { apply (step_request_done run_notified 1). vm_compute. eauto. }
  apply (rtc_l _ _ run_unblocked).
  { apply (step_unblock run_cancelled 1 room_hyphenated); [vm_compute; reflexivity|].
    apply (bool_decide_unpack _). vm_compute. exact I. }
  apply (rtc_l _ _ run_deregistered).
  { apply (step_deregister run_unblocked 1 room_hyphenated). vm_compute. reflexivity. }
  apply (rtc_l _ _ run_returned); [|apply rtc_refl].
  apply (step_return run_deregistered 1 room_hyphenated). vm_compute. reflexivity.
Qed.

Lemma rooms_are_never_removed_witness :
  is_Some (subscribes (hub run_returned) !! room_hyphenated) ∧
  subscribers room_hyphenated (subscribes (hub run_returned)) = ∅.
Proof.
  split.
  - apply (rooms_are_never_removed run_subscribed run_returned room_hyphenated
             run_winds_down).
    vm_compute. eauto.
  - vm_compute. reflexivity.
Defined.

(** ** What a broadcast does, subscriber by subscriber *)

Lemma frames_of_conn fails msg conn (l : list (nat * nat)) :
  NoDup l.*1 →
  (filter (λ f : nat * json, f.1 = conn)
     (frame_for msg <$> filter (λ s : nat * nat, fails s.1 = false) l)).*2 =
    if decide (conn ∈ l.*1 ∧ fails conn = false) then [marshal_Message msg] else [].
Proof.
  induction l as [|[a k] l IH].
  - intros _. rewrite decide_False; [done|]. intros [Hin _]. by apply elem_of_nil in Hin.
  - rewrite fmap_cons. cbn [fst].
    intros [Hfresh Hnodup]%NoDup_cons. specialize (IH Hnodup).
    rewrite filter_cons. cbn [fst].
    destruct (decide (fails a = false)) as [Hfa | Hfa].
    + rewrite fmap_cons, filter_cons. unfold frame_for at 1. cbn [fst].
      destruct (decide (a = conn)) as [-> | Hne].
      * rewrite fmap_cons, IH. cbn [snd].
        rewrite (decide_False (P := conn ∈ l.*1 ∧ _)) by tauto.
        rewrite decide_True; [done|]. split; [left | done].
      * rewrite IH. apply decide_ext. rewrite elem_of_cons. naive_solver.
    + rewrite IH. destruct (decide (a = conn)) as [-> | Hne].
      * rewrite !decide_False; [done | |]; intros [? ?]; congruence.
      * apply decide_ext. rewrite elem_of_cons. naive_solver.
Qed.

Lemma order_keys order (set : gmap nat nat) conn :
  range_order order →
  NoDup (order set).*1 ∧ (conn ∈ (order set).*1 ↔ conn ∈ dom set).
Proof.
  intros Horder. rewrite (Horder set). split.
  - apply NoDup_fst_map_to_list.
  - rewrite elem_of_dom, list_elem_of_fmap. split.
    + intros ([c k] & -> & Hin%elem_of_map_to_list). eauto.
    + intros [k Hk]. exists (conn, k). split; [done|]. by apply elem_of_map_to_list.
Qed.

Lemma subscribers_default room (subs : gmap string (gmap nat nat)) :
  subscribers room subs = dom (default ∅ (subs !! room)).
Proof.
  unfold subscribers. destruct (subs !! room); simpl; [done|]. by rewrite dom_empty_L.
Qed.

Lemma received_notifyClients fails order msg h conn :
  range_order order →
  received conn (notifyClients fails order msg h) =
    received conn h ++
    if decide (conn ∈ subscribers (RoomID msg) (subscribes h) ∧ fails conn = false)
    then [marshal_Message msg] else [].
Proof.
  intros Horder. rewrite notifyClients_loop by done.
  set (set := default ∅ (subscribes h !! RoomID msg)).
  destruct (foldl_deliver fails msg (order set) h) as (_ & Hwire & _).
  unfold received. rewrite Hwire, filter_app, fmap_app. f_equal.
  destruct (order_keys order set conn Horder) as [Hnodup Hkeys].
  rewrite frames_of_conn by done.
  apply decide_ext. by rewrite Hkeys, subscribers_default.
Qed.

Lemma cancelled_notifyClients fails order msg h k :
  range_order order →
  k ∈ cancelled (notifyClients fails order msg h) ↔
  k ∈ cancelled h ∨
  ∃ conn (set : gmap nat nat),
    subscribes h !! RoomID msg = Some set ∧ set !! conn = Some k ∧ fails conn = true.
Proof.
  intros Horder. rewrite notifyClients_loop by done.
  set (set := default ∅ (subscribes h !! RoomID msg)).
  destruct (foldl_deliver fails msg (order set) h) as (_ & _ & ->).
  rewrite elem_of_union, elem_of_list_to_set, list_elem_of_fmap.
  split.
  - intros [([c k'] & -> & Hin) | ?]; [|by left]. right.
    apply list_elem_of_filter in Hin as [Hbad Hin]. simpl in *.
    apply elem_of_order in Hin; [|done]. subst set.
    destruct (subscribes h !! RoomID msg) as [set|]; simpl in Hin.
    + by exists c, set.
    + by rewrite lookup_empty in Hin.
  - intros [? | (c & set0 & Hroom & Hk & Hbad)]; [by right|]. left.
    exists (c, k). split; [done|]. apply list_elem_of_filter. split; [done|].
    apply elem_of_order; [done|]. subst set. by rewrite Hroom.
Qed.

(** X3. A broadcast, whatever the number of failing writes: the table is
    unchanged; a connection receives the event's document, once, exactly
    when it is in the set of the event's room and its write succeeds; the
    contexts cancelled are exactly those stored for members whose write
    fails. *)
Theorem notifyClients_outcome fails order msg h :
  range_order order →
  subscribes (notifyClients fails order msg h) = subscribes h ∧
  (∀ conn,
     received conn (notifyClients fails order msg h) =
       received conn h ++
       if decide (conn ∈ subscribers (RoomID msg) (subscribes h) ∧ fails conn = false)
       then [marshal_Message msg] else []) ∧
  (∀ k, k ∈ cancelled (notifyClients fails order msg h) ↔
        k ∈ cancelled h ∨
        ∃ conn (set : gmap nat nat),
          subscribes h !! RoomID msg = Some set ∧ set !! conn = Some k ∧
          fails conn = true).
Proof.
  intros Horder. split; [apply notifyClients_subscribes|]. split.
  - intros conn. by apply received_notifyClients.
  - intros k. by apply cancelled_notifyClients.
Qed.

Lemma notifyClients_outcome_witness :
  received 1 (notifyClients (λ _, true) map_to_list hello_R1 hub_R1) = [] ∧
  received 2 (notifyClients (λ conn, bool_decide (conn = 1)) map_to_list hello_R1 hub_R1) =
    [marshal_Message hello_R1].
Proof.
  destruct (notifyClients_outcome (λ _, true) map_to_list hello_R1 hub_R1)
    as (_ & Hall_fail & _); [intros set; reflexivity|].
  destruct (notifyClients_outcome (λ conn, bool_decide (conn = 1)) map_to_list
              hello_R1 hub_R1) as (_ & Hone_fails & _); [intros set; reflexivity|].
  split.
  - rewrite (Hall_fail 1). vm_compute. reflexivity.
  - rewrite (Hone_fails 2). vm_compute. reflexivity.
Defined.

(** X4. The order in which [range] enumerates the set cannot be told from
    what any one subscriber receives, nor from the table or the cancelled
    contexts. *)
Theorem notifyClients_order_irrelevant fails order1 order2 msg h :
  range_order order1 → range_order order2 →
  subscribes (notifyClients fails order1 msg h) =
    subscribes (notifyClients fails order2 msg h) ∧
  cancelled (notifyClients fails order1 msg h) =
    cancelled (notifyClients fails order2 msg h) ∧
  ∀ conn, received conn (notifyClients fails order1 msg h) =
          received conn (notifyClients fails order2 msg h).
Proof.
  intros H1 H2. split; [by rewrite !notifyClients_subscribes|]. split.
  - apply set_eq. intros k. by rewrite !cancelled_notifyClients.
  - intros conn. by rewrite !received_notifyClients.
Qed.

Lemma notifyClients_order_irrelevant_witness :
  received 1 (notifyClients (λ _, false) map_to_list hello_R1 hub_R1) =
  received 1 (notifyClients (λ _, false) (λ set, reverse (map_to_list set))
                hello_R1 hub_R1) ∧
  wire (notifyClients (λ _, false) map_to_list hello_R1 hub_R1) ≠
  wire (notifyClients (λ _, false) (λ set, reverse (map_to_list set)) hello_R1 hub_R1).
Proof.
  split; [|vm_compute; discriminate].
  apply (notifyClients_order_irrelevant (λ _, false) map_to_list
           (λ set, reverse (map_to_list set)) hello_R1 hub_R1).
  - intros set. reflexivity.
  - intros set. apply reverse_Permutation.
Defined.

(** X5. Two broadcasts for the same room, one after the other, reach a
    healthy subscriber in that order. *)
Theorem broadcasts_arrive_in_order fails1 fails2 order1 order2 msg1 msg2 h conn :
  range_order order1 → range_order order2 →
  RoomID msg1 = RoomID msg2 →
  conn ∈ subscribers (RoomID msg1) (subscribes h) →
  fails1 conn = false → fails2 conn = false →
  received conn (notifyClients fails2 order2 msg2 (notifyClients fails1 order1 msg1 h)) =
    received conn h ++ [marshal_Message msg1; marshal_Message msg2].
Proof.
  intros H1 H2 Hroom Hin Hok1 Hok2.
  rewrite !received_notifyClients, notifyClients_subscribes by done.
  rewrite <- Hroom, !decide_True by done. by rewrite <- app_assoc.
Qed.

Lemma broadcasts_arrive_in_order_witness :
  received 1 (notifyClients (λ _, false) map_to_list
                (mkMessage KindMessageAnswered
                   (VMessageCreated (mkMessageCreated "m1" EmptyString)) "R1")
                (notifyClients (λ _, false) map_to_list hello_R1 hub_R1)) =
    received 1 hub_R1 ++
    [marshal_Message hello_R1;
     marshal_Message (mkMessage KindMessageAnswered
                        (VMessageCreated (mkMessageCreated "m1" EmptyString)) "R1")].
Proof.
  apply (broadcasts_arrive_in_order (λ _, false) (λ _, false) map_to_list map_to_list
           hello_R1 _ hub_R1 1).
  - intros set. reflexivity.
  - intros set. reflexivity.
  - reflexivity.
  - apply (bool_decide_unpack _). vm_compute. exact I.
  - reflexivity.
  - reflexivity.
Defined.

(** ** Broadcasts in a running server *)

Lemma step_table_stores_own_cancel s s' :
  step s s' → table_stores_own_cancel s → table_stores_own_cancel s'.
Proof.
  intros Hstep Hinv room0 set0 conn0 k0.
  destruct Hstep as [E req conn Hfree | conn room Hpc | conn Hpc
                    | conn room Hpc Hdone | conn room Hpc | conn room Hpc
                    | c E req | fails order msg before after Hpending Horder];
    simpl; try apply Hinv.
  - unfold handleSubscribe_enter. destruct (handleSubscribe_admit E req); apply Hinv.
  - rewrite register_insert.
    destruct (decide (room0 = room)) as [-> | Hne].
    + rewrite lookup_insert_eq. intros [= <-].
      destruct (decide (conn0 = conn)) as [-> | Hc].
      * rewrite lookup_insert_eq. congruence.
      * rewrite lookup_insert_ne by done.
        destruct (subscribes (hub s) !! room) as [set|] eqn:Hroom; simpl.
        -- by apply (Hinv room set).
        -- by rewrite lookup_empty.
    + rewrite lookup_insert_ne by done. apply Hinv.
  - unfold deregister.
    destruct (subscribes (hub s) !! room) as [set|] eqn:Hroom; [|apply Hinv].
    destruct (decide (room0 = room)) as [-> | Hne].
    + rewrite lookup_insert_eq. intros [= <-] [_ Hk]%lookup_delete_Some.
      by apply (Hinv room set).
    + rewrite lookup_insert_ne by done. apply Hinv.
  - rewrite notifyClients_subscribes. apply Hinv.
Qed.

Lemma reachable_table_stores_own_cancel s :
  reachable s → table_stores_own_cancel s.
Proof.
  revert s. apply reachable_ind.
  - intros room set conn k. simpl. by rewrite lookup_empty.
  - eauto using step_table_stores_own_cancel.
Qed.

(** X6. In a running server a broadcast for one room does not touch the
    subscribers of another: they receive nothing from it, and their
    contexts are cancelled afterwards only if they were before. *)
Theorem broadcast_stays_in_its_room s fails order msg conn room :
  reachable s → range_order order →
  conn ∈ subscribers room (subscribes (hub s)) →
  room ≠ RoomID msg →
  received conn (notifyClients fails order msg (hub s)) = received conn (hub s) ∧
  (cancel_of conn ∈ cancelled (notifyClients fails order msg (hub s)) →
   cancel_of conn ∈ cancelled (hub s)).
Proof.
  intros Hreach Horder Hin Hne.
  pose proof (reachable_table_tracks_routines s Hreach) as Htable.
  pose proof (reachable_table_stores_own_cancel s Hreach) as Hown.
  assert (Hout : conn ∉ subscribers (RoomID msg) (subscribes (hub s))).
  { intros Hin'. destruct (Htable _ _ Hin), (Htable _ _ Hin'); congruence. }
  split.
  - rewrite received_notifyClients by done.
    rewrite decide_False by tauto. apply app_nil_r.
  - rewrite cancelled_notifyClients by done.
    intros [? | (c & set & Hroom & Hk & _)]; [done|].
    pose proof (Hown _ _ _ _ Hroom Hk) as Hc.
    assert (c = conn) as -> by (unfold cancel_of in *; congruence).
    exfalso. apply Hout. unfold subscribers. rewrite Hroom.
    apply elem_of_dom. eauto.
Qed.

Lemma broadcast_stays_in_its_room_witness :
  received 1 (notifyClients (λ _, true) map_to_list hello_R1 (hub run_subscribed)) =
    received 1 (hub run_subscribed).
Proof.
  apply (broadcast_stays_in_its_room run_subscribed (λ _, true) map_to_list
           hello_R1 1 room_hyphenated).
  - exact run_subscribed_reachable.
  - intros set. reflexivity.
  - apply (bool_decide_unpack _). vm_compute. exact I.
  - discriminate.
Defined.

(** X7. In a running server a broadcast writes only to connections whose
    handler is registered for the event's room and has not yet
    deregistered: never to a connection whose handler has returned and
    closed it, never to one that is not registered yet. *)
Theorem no_write_outside_registration s fails order msg :
  reachable s → range_order order →
  ∃ frames,
    wire (notifyClients fails order msg (hub s)) = wire (hub s) ++ frames ∧
    ∀ conn j, (conn, j) ∈ frames →
      routines s !! conn = Some (mkRoutine (RoomID msg) Subscribed) ∨
      routines s !! conn = Some (mkRoutine (RoomID msg) Unblocked).
Proof.
  intros Hreach Horder.
  destruct (notifyClients_frames fails order msg (hub s) Horder)
    as (frames & Hwire & Hframes).
  exists frames. split; [exact Hwire|].
  intros conn j (_ & Hin & _)%Hframes.
  by apply (reachable_table_tracks_routines s Hreach).
Qed.

Lemma no_write_outside_registration_witness :
  ∃ frames,
    wire (notifyClients (λ _, false) map_to_list hello_R1 (hub run_returned)) =
      wire (hub run_returned) ++ frames ∧
    ∀ conn j, (conn, j) ∈ frames →
      routines run_returned !! conn = Some (mkRoutine (RoomID hello_R1) Subscribed) ∨
      routines run_returned !! conn = Some (mkRoutine (RoomID hello_R1) Unblocked).
Proof.
  apply (no_write_outside_registration run_returned (λ _, false) map_to_list hello_R1).
  - exact run_returned_reachable.
  - intros set. reflexivity.
Defined.

(** X8. A failed write is enough to end a subscription.  When a broadcast
    for the room of a parked subscriber fails on its connection, the
    handler's context is done; the handler can then unblock, deregister and
    return without the client or the server doing anything else, and the
    connection is left in no room's set. *)
Theorem failed_write_ends_subscription s fails order msg before after conn :
  reachable s → range_order order →
  pending s = before ++ msg :: after →
  routines s !! conn = Some (mkRoutine (RoomID msg) Subscribed) →
  fails conn = true →
  let notified := run_notify fails order msg (before ++ after) s in
  let ended :=
    handleSubscribe_return conn (RoomID msg)
      (handleSubscribe_deregister conn (RoomID msg)
         (handleSubscribe_unblock conn (RoomID msg) notified)) in
  cancel_of conn ∈ cancelled (hub notified) ∧
  received conn (hub notified) = received conn (hub s) ∧
  rtc step s ended ∧
  routines ended !! conn = Some (mkRoutine (RoomID msg) Returned) ∧
  ∀ room, conn ∉ subscribers room (subscribes (hub ended)).
Proof.
  intros Hreach Horder Hpending Hpc Hbad notified ended.
  pose proof (reachable_routines_in_table s Hreach _ _ (or_introl Hpc)) as Hin.
  pose proof (reachable_table_stores_own_cancel s Hreach) as Hown.
  assert (Hdone : cancel_of conn ∈ cancelled (hub notified)).
  { subst notified. simpl. apply cancelled_notifyClients; [done|]. right.
    unfold subscribers in Hin.
    destruct (subscribes (hub s) !! RoomID msg) as [set|] eqn:Hroom; [|set_solver].
    apply elem_of_dom in Hin as [k Hk].
    exists conn, set. by rewrite <- (Hown _ _ _ _ Hroom Hk). }
  assert (Hrun : rtc step s ended).
  { eapply rtc_l; [by apply (step_notify s fails order msg before after)|].
    fold notified.
    eapply rtc_l; [by apply (step_unblock notified conn (RoomID msg))|].
    eapply rtc_l; [apply (step_deregister _ conn (RoomID msg)); simpl;
                   apply lookup_insert_eq|].
    eapply rtc_l; [apply (step_return _ conn (RoomID msg)); simpl;
                   apply lookup_insert_eq|].
    apply rtc_refl. }
  assert (Hended : reachable ended) by (unfold reachable; by etrans).
  assert (Hret : routines ended !! conn = Some (mkRoutine (RoomID msg) Returned))
    by apply lookup_insert_eq.
  split; [exact Hdone|]. split.
  - subst notified. simpl. rewrite received_notifyClients by done.
    rewrite decide_False; [apply app_nil_r|]. intros [_ ?]; congruence.
  - split; [exact Hrun|]. split; [exact Hret|].
    intros room Hmember.
    destruct (reachable_table_tracks_routines ended Hended _ _ Hmember); congruence.
Qed.

Lemma run_posted_reachable : reachable run_posted.
Proof. apply (reachable_step run_subscribed run_posted run_subscribed_reachable), step_serve. Qed.

Lemma failed_write_ends_subscription_witness :
  cancel_of 1 ∈ cancelled (hub (run_notify (λ _, true) map_to_list
      (mkMessage KindMessageCreated
         (VMessageCreated (mkMessageCreated message_m1 "hello")) room_hyphenated)
      ([] ++ []) run_posted)) ∧
  ∀ room, 1 ∉ subscribers room (subscribes (hub
      (handleSubscribe_return 1 room_hyphenated
         (handleSubscribe_deregister 1 room_hyphenated
            (handleSubscribe_unblock 1 room_hyphenated
               (run_notify (λ _, true) map_to_list
                  (mkMessage KindMessageCreated
                     (VMessageCreated (mkMessageCreated message_m1 "hello")) room_hyphenated)
                  ([] ++ []) run_posted)))))).
Proof.
  destruct (failed_write_ends_subscription run_posted (λ _, true) map_to_list
              (mkMessage KindMessageCreated
                 (VMessageCreated (mkMessageCreated message_m1 "hello")) room_hyphenated)
              [] [] 1) as (Hdone & _ & _ & _ & Hgone).
  - exact run_posted_reachable.
  - intros set. reflexivity.
  - vm_compute. reflexivity.
  - vm_compute. reflexivity.
  - reflexivity.
  - split; [exact Hdone | exact Hgone].
Defined.

(** ** More on the handlers *)

(** X9. [handleSubscribe] admits a request exactly when the room id
    parses, the room exists and the upgrade succeeds; it then starts a
    routine for the connection under the raw room id and touches nothing
    else.  Every other request is answered with an error, and the server is
    left exactly as it was. *)
Theorem handleSubscribe_admission E req conn s :
  ((handleSubscribe_enter E req conn s).1 = None ↔
   ∃ roomID, uuid_Parse E (room_id req) = Some roomID ∧
             GetRoom E roomID = inr () ∧ Upgrade E req = true) ∧
  ((handleSubscribe_enter E req conn s).1 = None →
   (handleSubscribe_enter E req conn s).2 =
     mkServer (hub s) (<[conn := mkRoutine (room_id req) Upgraded]> (routines s))
              (pending s) (history s ++ [EvUpgrade conn])) ∧
  (∀ resp, (handleSubscribe_enter E req conn s).1 = Some resp →
           is_error resp ∧ (handleSubscribe_enter E req conn s).2 = s).
Proof.
  run_handler. unfold is_error, StatusBadRequest, StatusInternalServerError.
  destruct (uuid_Parse E (room_id req)) as [roomID|] eqn:Hparse; simpl.
  - destruct (GetRoom E roomID) as [[|]|[]] eqn:Hroom; simpl.
    + split; [split; [done | intros (? & ? & ? & ?); congruence]|].
      split; [done|]. intros resp [= <-]. split; [lia | done].
    + split; [split; [done | intros (? & ? & ? & ?); congruence]|].
      split; [done|]. intros resp [= <-]. split; [lia | done].
    + destruct (Upgrade E req) eqn:Hup; simpl.
      * split; [split; [eauto | done]|]. split; [done|]. intros resp [=].
      * split; [split; [done | intros (? & ? & ? & ?); congruence]|].
        split; [done|]. intros resp [= <-]. split; [lia | done].
  - split; [split; [done | intros (? & ? & ? & ?); congruence]|].
    split; [done|]. intros resp [= <-]. split; [lia | done].
Qed.

Lemma handleSubscribe_admission_witness :
  (handleSubscribe_enter store_ok request_hyphenated 1 NewHandler).2 =
    mkServer (hub NewHandler)
             (<[1 := mkRoutine room_hyphenated Upgraded]> (routines NewHandler))
             (pending NewHandler) (history NewHandler ++ [EvUpgrade 1]) ∧
  (handleSubscribe_enter store_ok (mkRequest "not-a-uuid" EmptyString None) 1 NewHandler).2 =
    NewHandler.
Proof.
  destruct (handleSubscribe_admission store_ok request_hyphenated 1 NewHandler)
    as (_ & Hadmitted & _).
  destruct (handleSubscribe_admission store_ok (mkRequest "not-a-uuid" EmptyString None)
              1 NewHandler) as (_ & _ & Hrefused).
  split.
  - apply Hadmitted. vm_compute. reflexivity.
  - apply (Hrefused (http_Error "invalid room id" 400)). vm_compute. reflexivity.
Defined.

(** X10. Posting a question, end to end: when the request passes the
    checks and the insert succeeds, the handler answers with the new id and
    issues one event; its broadcast appends to what a healthy subscriber of
    the URL's room has received the document with kind [message_created],
    the new id and the question's text. *)
Theorem created_message_reaches_subscriber E req roomID text messageID fails order h conn :
  uuid_Parse E (room_id req) = Some roomID →
  GetRoom E roomID = inr () →
  body_message req = Some text →
  InsertMessage E roomID text = inr messageID →
  range_order order →
  conn ∈ subscribers (room_id req) (subscribes h) →
  fails conn = false →
  ∃ msg,
    handleCreateRoomMessages E req =
      (http_JSON (JObject [("id", JString (uuid_String E messageID))]), [msg]) ∧
    received conn (notifyClients fails order msg h) =
      received conn h ++
      [JObject [("kind", JString "message_created");
                ("value", JObject [("id", JString (uuid_String E messageID));
                                   ("message", JString text)])]].
Proof.
  intros Hparse Hroom Hbody Hinsert Horder Hin Hok.
  eexists. split.
  - run_handler. rewrite Hparse. simpl. rewrite Hroom. simpl.
    rewrite Hbody, Hinsert. simpl. reflexivity.
  - rewrite received_notifyClients by done. simpl.
    by rewrite decide_True.
Qed.

Lemma created_message_reaches_subscriber_witness :
  ∃ msg,
    handleCreateRoomMessages store_ok request_hyphenated =
      (http_JSON (JObject [("id", JString (uuid_String store_ok m1_uuid))]), [msg]) ∧
    received 1 (notifyClients (λ _, false) map_to_list msg (hub run_subscribed)) =
      received 1 (hub run_subscribed) ++
      [JObject [("kind", JString "message_created");
                ("value", JObject [("id", JString (uuid_String store_ok m1_uuid));
                                   ("message", JString "hello")])]].
Proof.
  apply (created_message_reaches_subscriber store_ok request_hyphenated
           [18; 62; 69; 103; 232; 155; 18; 211; 164; 86; 66; 102; 20; 23; 64; 0]%N
           "hello" m1_uuid (λ _, false) map_to_list (hub run_subscribed) 1).
  - vm_compute. reflexivity.
  - reflexivity.
  - reflexivity.
  - reflexivity.
  - intros set. reflexivity.
  - apply (bool_decide_unpack _). vm_compute. exact I.
  - reflexivity.
Defined.

(** X11. The handlers scoped to a message use the room id for two things
    only: to check that the room exists, and to address the event.  They
    never relate the message to the room: the same message id under any
    two existing rooms gives the same answer and the same event, each
    addressed to the room named in its own URL. *)
Theorem message_handlers_ignore_room E c req1 req2 roomID1 roomID2 :
  c ≠ CreateMessage →
  message_id req1 = message_id req2 →
  uuid_Parse E (room_id req1) = Some roomID1 → GetRoom E roomID1 = inr () →
  uuid_Parse E (room_id req2) = Some roomID2 → GetRoom E roomID2 = inr () →
  (handler c E req1).1 = (handler c E req2).1 ∧
  (λ msg, (Kind msg, Value msg)) <$> (handler c E req1).2 =
    (λ msg, (Kind msg, Value msg)) <$> (handler c E req2).2 ∧
  (∀ msg, msg ∈ (handler c E req1).2 → RoomID msg = room_id req1) ∧
  (∀ msg, msg ∈ (handler c E req2).2 → RoomID msg = room_id req2).
Proof.
  intros Hc Hmsg Hp1 Hr1 Hp2 Hr2.
  split; [|split; [|split; intros msg [? _]%handler_issues; done]];
    destruct c; try done; run_handler;
    rewrite Hp1, Hp2; simpl; rewrite Hr1, Hr2, Hmsg; simpl;
    repeat (case_match; simplify_eq; simpl in * ); reflexivity.
Qed.

Lemma message_handlers_ignore_room_witness :
  (handler React store_ok request_hyphenated).1 =
    (handler React store_ok (mkRequest other_room message_m1 None)).1 ∧
  (λ msg, (Kind msg, Value msg)) <$> (handler React store_ok request_hyphenated).2 =
    (λ msg, (Kind msg, Value msg)) <$>
      (handler React store_ok (mkRequest other_room message_m1 None)).2.
Proof.
  destruct (message_handlers_ignore_room store_ok React request_hyphenated
              (mkRequest other_room message_m1 None)
              [18; 62; 69; 103; 232; 155; 18; 211; 164; 86; 66; 102; 20; 23; 64; 0]%N
              [0; 0; 0; 0; 0; 0; 0; 0; 0; 0; 0; 0; 0; 0; 0; 1]%N)
    as (Hresp & Hevent & _).
  - discriminate.
  - reflexivity.
  - vm_compute. reflexivity.
  - reflexivity.
  - vm_compute. reflexivity.
  - reflexivity.
  - split; [exact Hresp | exact Hevent].
Defined.

(** ** The handlers that read *)

(** X12. [handleGetRooms] answers [null], not an empty array, exactly when
    the store holds no room; otherwise an array with one object per room,
    in the order of the store; and 500 whenever the query fails. *)
Theorem handleGetRooms_body K E :
  (handleGetRooms K E = inr VNull ↔ GetRooms K = inr []) ∧
  (∀ items, handleGetRooms K E = inr (VArray items) ↔
     ∃ rooms, rooms ≠ [] ∧ GetRooms K = inr rooms ∧
       items = (λ room, VObject [("id", VString (uuid_String E (Room_ID room)));
                                 ("theme", VString (Room_Theme room))]) <$> rooms) ∧
  (∀ err, GetRooms K = inl err →
     handleGetRooms K E = inl (http_Error "something went wrong" 500)).
Proof.
  unfold handleGetRooms, must_commit, mbind, Early_bind, marshal_slice.
  destruct (GetRooms K) as [err | [|room rooms]]; simpl.
  - split; [split; [done | done]|]. split; [|by intros ? [= <-]].
    intros items. split; [done | by intros (? & ? & ? & ?)].
  - split; [done|]. split; [|done].
    intros items. split; [done|]. by intros (rooms & Hne & [= <-] & _).
  - split; [split; [done | done]|]. split; [|done].
    intros items. split.
    + intros [= <-]. by exists (room :: rooms).
    + by intros (rooms' & _ & [= <-] & ->).
Qed.

Lemma handleGetRooms_body_witness :
  handleGetRooms catalogue_none store_ok = inr VNull.
Proof.
  destruct (handleGetRooms_body catalogue_none store_ok) as ([_ Hnull] & _).
  apply Hnull. reflexivity.
Defined.

Lemma mapM_fmap_view {A B C} (g : A → B) (f : B → option C) (h : A → C) (l : list A) :
  (∀ x, f (g x) = Some (h x)) → mapM f (g <$> l) = Some (h <$> l).
Proof.
  intros Hfg. induction l as [|x l IH]; [done|].
  rewrite !fmap_cons. cbn [mapM]. rewrite Hfg. simpl. by rewrite IH.
Qed.

Lemma to_double_safe n : safe_integer n → to_double n = n.
Proof.
  unfold safe_integer, to_double. intros Hn.
  destruct (decide (Z.abs n < 2 ^ 53)%Z) as [Hlt | Hge].
  - assert (Z.log2 (Z.abs n) - 52 ≤ 0)%Z as He.
    { destruct (decide (Z.abs n = 0)%Z) as [-> | Hpos]; [done|].
      assert (Z.log2 (Z.abs n) < 53)%Z by (apply Z.log2_lt_pow2; lia). lia. }
    apply Z.leb_le in He. simpl. by rewrite He.
  - assert (n = 2 ^ 53 ∨ n = - 2 ^ 53)%Z as [-> | ->] by lia; reflexivity.
Qed.

(** Beyond 2^53 a count does not survive the parse. *)
Example to_double_rounds :
  to_double 9007199254740993 = 9007199254740992%Z ∧
  to_double 9223372036854775807 = 9223372036854775808%Z.
Proof. split; reflexivity. Qed.

(** X13. Loading a room's questions, server to client: for an existing
    room the client's [getRoomMessages], run on the parsed body of
    [handleGetRoomMessages], yields one entry per stored message, in the
    order of the store, holding its id, text and answered flag, and its
    reaction count as the double nearest to it (the count itself up to
    2^53); the [null] body of a room without messages yields the empty
    list. *)
Theorem fetched_messages K E req roomID rows :
  uuid_Parse E (room_id req) = Some roomID →
  GetRoom E roomID = inr () →
  GetRoomMessages K roomID = inr rows →
  Forall (λ row, int64 (Stored_ReactionCount row)) rows →
  ∃ body,
    handleGetRoomMessages K E req = inr body ∧
    (body = VNull ↔ rows = []) ∧
    getRoomMessages (response_json body) =
      Some ((λ row, mkClientMessage
                      (Some (VString (uuid_String E (Stored_ID row))))
                      (Some (VString (Stored_Message row)))
                      (Some (VNumber (to_double (Stored_ReactionCount row))))
                      (Some (VBool (Stored_Answered row)))) <$> rows) ∧
    (Forall (λ row, safe_integer (Stored_ReactionCount row)) rows →
     getRoomMessages (response_json body) =
       Some ((λ row, mkClientMessage
                       (Some (VString (uuid_String E (Stored_ID row))))
                       (Some (VString (Stored_Message row)))
                       (Some (VNumber (Stored_ReactionCount row)))
                       (Some (VBool (Stored_Answered row)))) <$> rows)).
Proof.
  intros Hparse Hroom Hrows _.
  exists (marshal_slice (marshal_stored E) rows).
  assert (Hclient : getRoomMessages (response_json (marshal_slice (marshal_stored E) rows)) =
      Some ((λ row, mkClientMessage
                      (Some (VString (uuid_String E (Stored_ID row))))
                      (Some (VString (Stored_Message row)))
                      (Some (VNumber (to_double (Stored_ReactionCount row))))
                      (Some (VBool (Stored_Answered row)))) <$> rows)).
  { destruct rows as [|row rows]; [done|].
    unfold marshal_slice. cbn [response_json getRoomMessages].
    rewrite <- list_fmap_compose.
    apply mapM_fmap_view. intros x. reflexivity. }
  split.
  - unfold handleGetRoomMessages. run_handler. rewrite Hparse. simpl.
    rewrite Hroom. simpl. by rewrite Hrows.
  - split; [by destruct rows|]. split; [exact Hclient|].
    intros Hsafe. rewrite Hclient. f_equal.
    apply list_fmap_ext. intros i row Hrow.
    rewrite to_double_safe; [done|].
    rewrite Forall_forall in Hsafe. apply Hsafe.
    by apply list_elem_of_lookup_2 in Hrow.
Qed.

Lemma fetched_messages_witness :
  ∃ body,
    handleGetRoomMessages catalogue_two store_ok request_hyphenated = inr body ∧
    getRoomMessages (response_json body) = Some cached_two.
Proof.
  destruct (fetched_messages catalogue_two store_ok request_hyphenated
              [18; 62; 69; 103; 232; 155; 18; 211; 164; 86; 66; 102; 20; 23; 64; 0]%N
              two_stored) as (body & Hbody & _ & Hclient & _).
  - vm_compute. reflexivity.
  - reflexivity.
  - reflexivity.
  - repeat constructor; vm_compute; congruence.
  - exists body. split; [exact Hbody|].
    rewrite Hclient. vm_compute. reflexivity.
Defined.

(** X14. [handleGetRoomMessage] looks the message up by its id alone: under
    any two existing rooms the same message id gets the same answer,
    whichever room the message belongs to. *)
Theorem handleGetRoomMessage_any_room K E req1 req2 roomID1 roomID2 :
  message_id req1 = message_id req2 →
  uuid_Parse E (room_id req1) = Some roomID1 → GetRoom E roomID1 = inr () →
  uuid_Parse E (room_id req2) = Some roomID2 → GetRoom E roomID2 = inr () →
  handleGetRoomMessage K E req1 = handleGetRoomMessage K E req2.
Proof.
  intros Hmsg Hp1 Hr1 Hp2 Hr2. unfold handleGetRoomMessage. run_handler.
  by rewrite Hp1, Hp2, Hmsg; simpl; rewrite Hr1, Hr2.
Qed.

Lemma handleGetRoomMessage_any_room_witness :
  handleGetRoomMessage catalogue_two store_ok request_hyphenated =
  handleGetRoomMessage catalogue_two store_ok (mkRequest other_room message_m1 None).
Proof.
  apply (handleGetRoomMessage_any_room catalogue_two store_ok request_hyphenated
           (mkRequest other_room message_m1 None)
           [18; 62; 69; 103; 232; 155; 18; 211; 164; 86; 66; 102; 20; 23; 64; 0]%N
           [0; 0; 0; 0; 0; 0; 0; 0; 0; 0; 0; 0; 0; 0; 0; 1]%N).
  - reflexivity.
  - vm_compute. reflexivity.
  - reflexivity.
  - vm_compute. reflexivity.
  - reflexivity.
Defined.

(** ** Events on the client *)

Lemma mapM_total {A B} (f : A → option B) (g : A → B) (l : list A) :
  (∀ x, f x = Some (g x)) → mapM f l = Some (g <$> l).
Proof.
  intros Hfg. rewrite <- (list_fmap_id l) at 1. by apply mapM_fmap_view.
Qed.

Lemma js_strict_eq_string k s :
  js_strict_eq k (Some (VString s)) = true ↔ k = Some (VString s).
Proof.
  destruct k as [[]|]; simpl; try (split; [discriminate | by intros [=]]).
  rewrite bool_decide_eq_true. split; [by intros -> | by intros [= ->]].
Qed.

(** X15. A posted question, server to client: the event issued by
    [handleCreateRoomMessages], parsed and handled by [ws.onmessage], adds
    at the end of the cached list (an empty one if nothing was cached) an
    entry with the event's id, the question's text, no reactions and not
    answered. *)
Theorem created_event_on_client E req msg state :
  msg ∈ (handleCreateRoomMessages E req).2 →
  ∃ id text,
    body_message req = Some text ∧
    Value msg = VMessageCreated (mkMessageCreated id text) ∧
    onmessage (to_jvalue (marshal_Message msg)) state =
      Some (Some (default [] state ++
                  [mkClientMessage (Some (VString id)) (Some (VString text))
                                   (Some (VNumber 0)) (Some (VBool false))])).
Proof.
  run_handler. repeat (case_match; simplify_eq; simpl in * );
    intros Hin; try (by apply elem_of_nil in Hin);
    apply list_elem_of_singleton in Hin as ->.
  eexists _, _. split; [reflexivity|]. split; reflexivity.
Qed.

Lemma created_event_on_client_witness :
  ∃ id text,
    body_message request_hyphenated = Some text ∧
    Value (mkMessage KindMessageCreated
             (VMessageCreated (mkMessageCreated message_m1 "hello")) room_hyphenated) =
      VMessageCreated (mkMessageCreated id text) ∧
    onmessage (to_jvalue (marshal_Message
                 (mkMessage KindMessageCreated
                    (VMessageCreated (mkMessageCreated message_m1 "hello"))
                    room_hyphenated))) None =
      Some (Some (default [] None ++
                  [mkClientMessage (Some (VString id)) (Some (VString text))
                                   (Some (VNumber 0)) (Some (VBool false))])).
Proof.
  apply (created_event_on_client store_ok request_hyphenated).
  vm_compute. constructor.
Defined.

(** X16. A question marked answered, server to client: the event issued by
    [handleMarkMessageAsAnswer] carries an extra empty [message] member,
    which the client does not read; handled by [ws.onmessage] it sets the
    answered flag of the cached entries with the event's id and leaves all
    others as they are.  While nothing is cached the event is dropped. *)
Theorem answered_event_on_client E req msg messages :
  msg ∈ (handleMarkMessageAsAnswer E req).2 →
  ∃ messageID,
    uuid_Parse E (message_id req) = Some messageID ∧
    json_keys (marshal_Value (Value msg)) = ["id"; "message"] ∧
    onmessage (to_jvalue (marshal_Message msg)) (Some messages) =
      Some (Some ((λ m, if js_strict_eq (cm_id m)
                             (Some (VString (uuid_String E messageID)))
                        then mkClientMessage (cm_id m) (cm_text m)
                               (cm_amountOfReactions m) (Some (VBool true))
                        else m) <$> messages)) ∧
    onmessage (to_jvalue (marshal_Message msg)) None = Some None.
Proof.
  run_handler. repeat (case_match; simplify_eq; simpl in * );
    intros Hin; try (by apply elem_of_nil in Hin);
    apply list_elem_of_singleton in Hin as ->.
  eexists. split; [reflexivity|]. split; [reflexivity|]. split; [|reflexivity].
  unfold onmessage, on_answered. simpl.
  erewrite mapM_total; [reflexivity|]. intros m. simpl. by case_match.
Qed.

Lemma answered_event_on_client_witness :
  onmessage (to_jvalue (marshal_Message
               (mkMessage KindMessageAnswered
                  (VMessageCreated (mkMessageCreated message_m1 EmptyString))
                  room_hyphenated))) (Some cached_two) =
    Some (Some [mkClientMessage (Some (VString message_m1)) (Some (VString "hello"))
                                (Some (VNumber 3)) (Some (VBool true));
                mkClientMessage (Some (VString "00000000-0000-0000-0000-000000000002"))
                                (Some (VString "again")) (Some (VNumber 5))
                                (Some (VBool true))]).
Proof.
  destruct (answered_event_on_client store_ok request_hyphenated
              (mkMessage KindMessageAnswered
                 (VMessageCreated (mkMessageCreated message_m1 EmptyString))
                 room_hyphenated) cached_two) as (messageID & Hparse & _ & Hcache & _).
  - vm_compute. constructor.
  - assert (Some messageID = Some m1_uuid) as [= ->].
    { rewrite <- Hparse. vm_compute. reflexivity. }
    rewrite Hcache. vm_compute. reflexivity.
Defined.

(** X17. A reaction added or removed, server to client: the event of
    either handler, parsed and handled by [ws.onmessage], writes into the
    cached entries with the event's id the double nearest to the count the
    store returned (the count itself up to 2^53) and leaves all others as
    they are; the two kinds are handled alike, the count is taken as it
    comes and nothing is added or subtracted. *)
Theorem reaction_event_on_client E c req msg messages :
  c = React ∨ c = RemoveReact →
  msg ∈ (handler c E req).2 →
  ∃ messageID count,
    uuid_Parse E (message_id req) = Some messageID ∧
    match c with
    | React => ReactToMessage E messageID
    | _ => RemoveReactionFromMessage E messageID
    end = inr count ∧
    (int64 count →
     onmessage (to_jvalue (marshal_Message msg)) (Some messages) =
       Some (Some ((λ m, if js_strict_eq (cm_id m)
                              (Some (VString (uuid_String E messageID)))
                         then mkClientMessage (cm_id m) (cm_text m)
                                (Some (VNumber (to_double count))) (cm_answered m)
                         else m) <$> messages))) ∧
    (safe_integer count →
     onmessage (to_jvalue (marshal_Message msg)) (Some messages) =
       Some (Some ((λ m, if js_strict_eq (cm_id m)
                              (Some (VString (uuid_String E messageID)))
                         then mkClientMessage (cm_id m) (cm_text m)
                                (Some (VNumber count)) (cm_answered m)
                         else m) <$> messages))).
Proof.
  intros [-> | ->]; run_handler; repeat (case_match; simplify_eq; simpl in * );
    intros Hin; try (by apply elem_of_nil in Hin);
    apply list_elem_of_singleton in Hin as ->;
    (eexists _, _; split; [reflexivity|]; split; [eassumption|]);
    match goal with
    | |- (_ → ?lhs = ?rounded) ∧ _ => assert (Hparsed : lhs = rounded)
    end;
    try (unfold onmessage, on_reaction; simpl;
         (erewrite mapM_total; [reflexivity|]); intros m; simpl; by case_match);
    (split; [done|]; intros Hsafe; rewrite Hparsed;
     by rewrite (to_double_safe _ Hsafe)).
Qed.

Lemma reaction_event_on_client_witness :
  onmessage (to_jvalue (marshal_Message
               (mkMessage KindMessageReactionDecreased
                  (VMessageReaction (mkMessageReaction message_m1 2)) room_hyphenated)))
            (Some cached_two) =
    Some (Some [mkClientMessage (Some (VString message_m1)) (Some (VString "hello"))
                                (Some (VNumber 2)) (Some (VBool false));
                mkClientMessage (Some (VString "00000000-0000-0000-0000-000000000002"))
                                (Some (VString "again")) (Some (VNumber 5))
                                (Some (VBool true))]).
Proof.
  destruct (reaction_event_on_client store_ok RemoveReact request_hyphenated
              (mkMessage KindMessageReactionDecreased
                 (VMessageReaction (mkMessageReaction message_m1 2)) room_hyphenated)
              cached_two) as (messageID & count & Hparse & Hcount & _ & Hcache).
  - by right.
  - vm_compute. constructor.
  - assert (Some messageID = Some m1_uuid) as [= ->].
    { rewrite <- Hparse. vm_compute. reflexivity. }
    simpl in Hcount. injection Hcount as <-.
    rewrite Hcache; [vm_compute; reflexivity|].
    unfold safe_integer. vm_compute. congruence.
Defined.

Lemma Forall2_fmap_eq {A B} (f : A → B) (l k : list A) :
  Forall2 (λ x y, f y = f x) l k → f <$> k = f <$> l.
Proof.
  induction 1 as [|x y l k Hxy _ IH]; [reflexivity|].
  rewrite !fmap_cons. by rewrite Hxy, IH.
Qed.

Lemma on_answered_step data m m' :
  (value ← js_get "value" (Some data);
   id ← js_get "id" value;
   if js_strict_eq (cm_id m) id
   then Some (mkClientMessage (cm_id m) (cm_text m) (cm_amountOfReactions m)
                (Some (VBool true)))
   else Some m) = Some m' →
  cm_id m' = cm_id m ∧ cm_text m' = cm_text m ∧
  (value ← js_get "value" (Some data);
   id ← js_get "id" value;
   if js_strict_eq (cm_id m') id
   then Some (mkClientMessage (cm_id m') (cm_text m') (cm_amountOfReactions m')
                (Some (VBool true)))
   else Some m') = Some m'.
Proof.
  destruct (js_get "value" (Some data)) as [value|]; simpl; [|done].
  destruct (js_get "id" value) as [id|]; simpl; [|done].
  destruct (js_strict_eq (cm_id m) id) eqn:Heq; intros [= <-]; simpl;
    by rewrite Heq.
Qed.

Lemma on_reaction_step data m m' :
  (value ← js_get "value" (Some data);
   id ← js_get "id" value;
   if js_strict_eq (cm_id m) id
   then count ← js_get "react_count" value;
        Some (mkClientMessage (cm_id m) (cm_text m) count (cm_answered m))
   else Some m) = Some m' →
  cm_id m' = cm_id m ∧ cm_text m' = cm_text m ∧
  (value ← js_get "value" (Some data);
   id ← js_get "id" value;
   if js_strict_eq (cm_id m') id
   then count ← js_get "react_count" value;
        Some (mkClientMessage (cm_id m') (cm_text m') count (cm_answered m'))
   else Some m') = Some m'.
Proof.
  destruct (js_get "value" (Some data)) as [value|]; simpl; [|done].
  destruct (js_get "id" value) as [id|]; simpl; [|done].
  destruct (js_strict_eq (cm_id m) id) eqn:Heq.
  - destruct (js_get "react_count" value) as [count|]; simpl; [|done].
    intros [= <-]. simpl. by rewrite Heq.
  - intros [= <-]. by rewrite Heq.
Qed.

Lemma mapM_again {A} (f : A → option A) (P : A → A → Prop) (l l' : list A) :
  (∀ x y, f x = Some y → P x y ∧ f y = Some y) →
  mapM f l = Some l' →
  Forall2 P l l' ∧ mapM f l' = Some l'.
Proof.
  intros Hf Hl. apply mapM_Some in Hl. split.
  - eapply Forall2_impl; [exact Hl|]. intros x y Hxy. by apply Hf.
  - apply mapM_Some. induction Hl as [|x y l l' Hxy _ IH]; constructor; [|done].
    by apply (Hf x y).
Qed.

(** Handling a document that is not a [message_created] event: the cache
    keeps its entries, their ids and their texts, and handling the same
    document again changes nothing more. *)
Lemma onmessage_update data state state' :
  js_get "kind" (Some data) ≠ Some (Some (VString "message_created")) →
  onmessage data state = Some state' →
  cm_id <$> default [] state' = cm_id <$> default [] state ∧
  cm_text <$> default [] state' = cm_text <$> default [] state ∧
  (is_Some state' ↔ is_Some state) ∧
  onmessage data state' = Some state'.
Proof.
  intros Hkind. unfold onmessage.
  destruct (js_get "kind" (Some data)) as [kind|]; simpl; [|done].
  destruct (js_strict_eq kind (Some (VString "message_created"))) eqn:Hcreated.
  { apply js_strict_eq_string in Hcreated. congruence. }
  destruct (js_strict_eq kind (Some (VString "message_answered"))).
  { unfold on_answered. destruct state as [messages|]; simpl.
    - destruct (mapM _ messages) as [messages'|] eqn:Hmap; simpl; [|done].
      intros [= <-]. simpl.
      apply (mapM_again _ (λ x y, cm_id y = cm_id x ∧ cm_text y = cm_text x)) in Hmap
        as [Hkeep Hagain];
        [|intros x y Hxy; apply on_answered_step in Hxy as (? & ? & ?);
          split; [split|]; assumption].
      rewrite Hagain. simpl.
      split; [apply Forall2_fmap_eq; eapply Forall2_impl; [exact Hkeep|];
              by intros ? ? [? ?]|].
      split; [apply Forall2_fmap_eq; eapply Forall2_impl; [exact Hkeep|];
              by intros ? ? [? ?]|].
      done.
    - by intros [= <-]. }
  destruct (js_strict_eq kind (Some (VString "message_reaction_increased"))
            || js_strict_eq kind (Some (VString "message_reaction_decreased"))).
  { unfold on_reaction. destruct state as [messages|]; simpl.
    - destruct (mapM _ messages) as [messages'|] eqn:Hmap; simpl; [|done].
      intros [= <-]. simpl.
      apply (mapM_again _ (λ x y, cm_id y = cm_id x ∧ cm_text y = cm_text x)) in Hmap
        as [Hkeep Hagain];
        [|intros x y Hxy; apply on_reaction_step in Hxy as (? & ? & ?);
          split; [split|]; assumption].
      rewrite Hagain. simpl.
      split; [apply Forall2_fmap_eq; eapply Forall2_impl; [exact Hkeep|];
              by intros ? ? [? ?]|].
      split; [apply Forall2_fmap_eq; eapply Forall2_impl; [exact Hkeep|];
              by intros ? ? [? ?]|].
      done.
    - by intros [= <-]. }
  by intros [= <-].
Qed.

(** X18. Whatever document arrives, [ws.onmessage] never removes or
    reorders cached entries and never changes an id or a text: either the
    list keeps its entries in place, or (for [message_created]) one entry
    with no reactions and not answered is added at the end. *)
Theorem onmessage_keeps_entries data messages state' :
  onmessage data (Some messages) = Some state' →
  ∃ messages',
    state' = Some messages' ∧
    ((cm_id <$> messages' = cm_id <$> messages ∧
      cm_text <$> messages' = cm_text <$> messages) ∨
     ∃ m, messages' = messages ++ [m] ∧
          cm_amountOfReactions m = Some (VNumber 0) ∧
          cm_answered m = Some (VBool false)).
Proof.
  intros Hev.
  destruct (js_get "kind" (Some data)) as [kind|] eqn:Hget;
    [|by unfold onmessage in Hev; rewrite Hget in Hev].
  destruct (js_strict_eq kind (Some (VString "message_created"))) eqn:Hcreated.
  - unfold onmessage in Hev. rewrite Hget in Hev. simpl in Hev.
    rewrite Hcreated in Hev. unfold on_created in Hev.
    destruct (js_get "value" (Some data)) as [value|]; simpl in Hev; [|done].
    destruct (js_get "id" value) as [id|]; simpl in Hev; [|done].
    destruct (js_get "message" value) as [text|]; simpl in Hev; [|done].
    injection Hev as <-. eexists. split; [reflexivity|]. right. by eexists.
  - assert (Hkind : js_get "kind" (Some data) ≠
                    Some (Some (VString "message_created"))).
    { rewrite Hget. intros [= ->].
      assert (js_strict_eq (Some (VString "message_created"))
                (Some (VString "message_created")) = true) by by apply js_strict_eq_string.
      congruence. }
    destruct (onmessage_update data (Some messages) state' Hkind Hev)
      as (Hid & Htext & [_ Hsome] & _).
    destruct Hsome as [messages' ->]; [by eexists|].
    exists messages'. split; [reflexivity|]. by left.
Qed.

Lemma onmessage_keeps_entries_witness :
  ∃ messages',
    Some (Some [mkClientMessage (Some (VString message_m1)) (Some (VString "hello"))
                                (Some (VNumber 7)) (Some (VBool false))]) =
      Some (Some messages') ∧
    cm_id <$> messages' = [Some (VString message_m1)].
Proof.
  destruct (onmessage_keeps_entries
              (VObject [("kind", VString "message_reaction_increased");
                        ("value", VObject [("id", VString message_m1);
                                           ("react_count", VNumber 7)])])
              [mkClientMessage (Some (VString message_m1)) (Some (VString "hello"))
                               (Some (VNumber 3)) (Some (VBool false))]
              (Some [mkClientMessage (Some (VString message_m1)) (Some (VString "hello"))
                                     (Some (VNumber 7)) (Some (VBool false))]))
    as (messages' & Heq & Hkeep).
  - vm_compute. reflexivity.
  - exists messages'. split; [by rewrite Heq|].
    injection Heq as <-. reflexivity.
Defined.

(** X19. Handling the same event twice is the same as handling it once,
    for every document that is not a [message_created] event: answered
    flags are set, counts are overwritten, nothing is accumulated.  (A
    [message_created] document handled twice adds two entries.) *)
Theorem onmessage_idempotent data state state' :
  js_get "kind" (Some data) ≠ Some (Some (VString "message_created")) →
  onmessage data state = Some state' →
  onmessage data state' = Some state'.
Proof. intros Hkind Hev. by apply (onmessage_update data state state'). Qed.

Lemma onmessage_idempotent_witness :
  onmessage (VObject [("kind", VString "message_answered");
                      ("value", VObject [("id", VString message_m1)])])
            (Some [mkClientMessage (Some (VString message_m1)) (Some (VString "hello"))
                                   (Some (VNumber 3)) (Some (VBool true));
                   mkClientMessage (Some (VString "00000000-0000-0000-0000-000000000002"))
                                   (Some (VString "again")) (Some (VNumber 5))
                                   (Some (VBool true))]) =
    Some (Some [mkClientMessage (Some (VString message_m1)) (Some (VString "hello"))
                                (Some (VNumber 3)) (Some (VBool true));
                mkClientMessage (Some (VString "00000000-0000-0000-0000-000000000002"))
                                (Some (VString "again")) (Some (VNumber 5))
                                (Some (VBool true))]).
Proof.
  apply (onmessage_idempotent
           (VObject [("kind", VString "message_answered");
                     ("value", VObject [("id", VString message_m1)])])
           (Some cached_two)).
  - vm_compute. discriminate.
  - vm_compute. reflexivity.
Defined.

(** ** The order in which the client shows the questions *)

Lemma insert_sorted_perm {A} (compare : A → A → Z) x (l : list A) :
  insert_sorted compare x l ≡ₚ x :: l.
Proof.
  induction l as [|y l IH]; simpl; [done|].
  case_match; [done|]. rewrite IH. apply Permutation_swap.
Qed.

Lemma js_sort_perm {A} (compare : A → A → Z) (l : list A) :
  js_sort compare l ≡ₚ l.
Proof.
  induction l as [|x l IH]; simpl; [done|].
  by rewrite insert_sorted_perm, IH.
Qed.

Lemma insert_sorted_by_reactions x l :
  StronglySorted more_reactions l →
  StronglySorted more_reactions (insert_sorted by_reactions x l).
Proof.
  induction 1 as [|y l Hsorted IH Hy]; simpl.
  - repeat constructor.
  - destruct (by_reactions x y <=? 0)%Z eqn:Hcmp.
    + apply Z.leb_le in Hcmp. constructor; [by constructor|].
      constructor; [unfold more_reactions, by_reactions in *; lia|].
      eapply Forall_impl; [exact Hy|]. intros z Hz.
      unfold more_reactions, by_reactions in *. lia.
    + apply Z.leb_gt in Hcmp. constructor; [exact IH|].
      rewrite insert_sorted_perm. constructor; [|exact Hy].
      unfold more_reactions, by_reactions in *. lia.
Qed.

Lemma js_sort_by_reactions l :
  StronglySorted more_reactions (js_sort by_reactions l).
Proof.
  induction l as [|x l IH]; simpl; [constructor|].
  by apply insert_sorted_by_reactions.
Qed.

Lemma StronglySorted_filter_keep {A} (R : A → A → Prop) (P : A → Prop)
    `{∀ x, Decision (P x)} (l : list A) :
  StronglySorted R l → StronglySorted R (filter P l).
Proof.
  induction 1 as [|x l Hsorted IH Hx]; [constructor|].
  rewrite filter_cons. case_decide; [|exact IH].
  constructor; [exact IH|].
  apply Forall_forall. intros y [_ Hy]%list_elem_of_filter.
  rewrite Forall_forall in Hx. by apply Hx.
Qed.

(** Sorting by the answered flag moves nothing but the answered entries,
    as a block, behind the others. *)
Lemma insert_open x (l : list ClientMessage) :
  ¬ is_answered x → insert_sorted by_answered x l = x :: l.
Proof.
  intros Hx. destruct l as [|y l]; simpl; [done|].
  unfold by_answered, is_answered in *.
  destruct (truthy (cm_answered x)); [done|]. simpl.
  by destruct (truthy (cm_answered y)).
Qed.

Lemma insert_answered x (open done : list ClientMessage) :
  is_answered x → Forall (λ m, ¬ is_answered m) open → Forall is_answered done →
  insert_sorted by_answered x (open ++ done) = open ++ x :: done.
Proof.
  intros Hx Hopen Hdone. induction Hopen as [|y open Hy _ IH]; simpl.
  - destruct Hdone as [|z done Hz _]; simpl; [done|].
    unfold by_answered, is_answered in *. by rewrite Hx, Hz.
  - unfold by_answered at 1. unfold is_answered in *.
    rewrite Hx. destruct (truthy (cm_answered y)); [done|]. simpl.
    by rewrite IH.
Qed.

Lemma js_sort_by_answered (l : list ClientMessage) :
  js_sort by_answered l =
    filter (λ m, ¬ is_answered m) l ++ filter is_answered l.
Proof.
  induction l as [|x l IH]; simpl; [done|]. rewrite IH.
  rewrite !filter_cons. destruct (decide (is_answered x)) as [Hx | Hx].
  - rewrite decide_False by tauto.
    apply insert_answered; [done | |]; apply Forall_forall;
      by intros m [? _]%list_elem_of_filter.
  - rewrite decide_True by done. by apply insert_open.
Qed.

(** X20. The list as shown: with numeric reaction counts, [sortedMessages]
    is a rearrangement of the cached list in which every question not yet
    answered stands before every answered one, and within each of the two
    groups the reaction counts fall. *)
Theorem sortedMessages_order messages :
  Forall counted messages →
  sortedMessages messages ≡ₚ messages ∧
  ∃ open done,
    sortedMessages messages = open ++ done ∧
    Forall (λ m, ¬ is_answered m) open ∧ Forall is_answered done ∧
    StronglySorted more_reactions open ∧ StronglySorted more_reactions done.
Proof.
  intros _. unfold sortedMessages. split.
  - by rewrite !js_sort_perm.
  - rewrite js_sort_by_answered. eexists _, _. split; [reflexivity|].
    split; [apply Forall_forall; by intros m [? _]%list_elem_of_filter|].
    split; [apply Forall_forall; by intros m [? _]%list_elem_of_filter|].
    split; apply StronglySorted_filter_keep, js_sort_by_reactions.
Qed.

Lemma sortedMessages_order_witness :
  sortedMessages
    (mkClientMessage (Some (VString "c")) (Some (VString "third"))
                     (Some (VNumber 9)) (Some (VBool false)) :: cached_two) ≡ₚ
  mkClientMessage (Some (VString "c")) (Some (VString "third"))
                  (Some (VNumber 9)) (Some (VBool false)) :: cached_two.
Proof.
  apply (sortedMessages_order
           (mkClientMessage (Some (VString "c")) (Some (VString "third"))
                            (Some (VNumber 9)) (Some (VBool false)) :: cached_two)).
  repeat constructor; eexists; reflexivity.
Defined.

(** An answered question goes last even with the most reactions. *)
Example sortedMessages_sample :
  cm_text <$> sortedMessages
                (cached_two ++
                 [mkClientMessage (Some (VString "c")) (Some (VString "third"))
                                  (Some (VNumber 4)) (Some (VBool false))]) =
    [Some (VString "third"); Some (VString "hello"); Some (VString "again")].
Proof. vm_compute. reflexivity. Qed.
